(** * HS220 simulator: forward kinematics and joint-state updates

    A shallow embedding of [utils/kinematics.ts] (the forward-kinematics
    routine), [types.ts] (joint limits, initial joints) and of the two
    joint-state update paths, [Controls.handleChange] and
    [AICopilot.handleSubmit].

    JavaScript numbers are kept abstract behind the interface [JSNumber];
    the program text is embedded once, over that interface, and read at
    two instances:
    - [RealNumber]: exact real arithmetic (no rounding, no NaN), used for
      the geometric statements;
    - [Double.DoubleNumber]: IEEE-754 binary64 through Rocq's primitive
      floats, with the [Math] library as a parameter constrained by what
      ECMAScript fixes, used for statements on NaN and overflow. *)

From Stdlib Require Import ZArith Bool Reals Lra Lia Floats.
From Stdlib Require Import Ascii String.
From Stdlib Require Import NArith List.

Declare Scope js_scope.
Delimit Scope js_scope with js.

(** ** The number interface *)

Class JSNumber (num : Type) : Type := {
  ofZ : Z -> num;                 (* integer-valued literals: 180.0, 643.0, 360 ... *)
  lit_0_001 : num;                (* the literal 0.001 *)
  Math_PI : num;
  add : num -> num -> num;
  sub : num -> num -> num;
  mul : num -> num -> num;
  div : num -> num -> num;
  Math_cos : num -> num;
  Math_sin : num -> num;
  Math_abs : num -> num;
  Math_min : num -> num -> num;
  Math_max : num -> num -> num;
  lt : num -> num -> bool;        (* a < b *)
  gt : num -> num -> bool;        (* a > b *)
  ge : num -> num -> bool;        (* a >= b *)
  isNaN : num -> bool;
  toFixed2 : num -> num           (* parseFloat(a.toFixed(2)) *)
}.

Infix "+" := add : js_scope.
Infix "-" := sub : js_scope.
Infix "*" := mul : js_scope.
Infix "/" := div : js_scope.
Infix "<?" := lt : js_scope.
Infix ">?" := gt (at level 70) : js_scope.
Infix ">=?" := ge (at level 70) : js_scope.

(** ** types.ts *)

Record JointState (num : Type) : Type := mkJointState {
  j1 : num; j2 : num; j3 : num; j4 : num; j5 : num; j6 : num
}.

Record Pose (num : Type) : Type := mkPose {
  x : num; y : num; z : num; rx : num; ry : num; rz : num
}.

Arguments mkJointState {num} _ _ _ _ _ _.
Arguments j1 {num} _.
Arguments j2 {num} _.
Arguments j3 {num} _.
Arguments j4 {num} _.
Arguments j5 {num} _.
Arguments j6 {num} _.
Arguments mkPose {num} _ _ _ _ _ _.
Arguments x {num} _.
Arguments y {num} _.
Arguments z {num} _.
Arguments rx {num} _.
Arguments ry {num} _.
Arguments rz {num} _.

Inductive Axis : Type := J1 | J2 | J3 | J4 | J5 | J6.

Definition Axis_eq_dec (a b : Axis) : {a = b} + {a <> b}.
Proof. decide equality. Defined.

Record Limit (num : Type) : Type := mkLimit { min : num; max : num }.
Arguments mkLimit {num} _ _.
Arguments min {num} _.
Arguments max {num} _.

Record Dims (num : Type) : Type := mkDims {
  d1 : num; a1 : num; a2 : num; a3 : num; d4 : num;
  j2_offset_deg : num; j3_offset_deg : num
}.
Arguments mkDims {num} _ _ _ _ _ _ _.
Arguments d1 {num} _.
Arguments a1 {num} _.
Arguments a2 {num} _.
Arguments a3 {num} _.
Arguments d4 {num} _.
Arguments j2_offset_deg {num} _.
Arguments j3_offset_deg {num} _.

Section Program.

Context {num : Type} `{JSNumber num}.
Local Open Scope js_scope.

Definition INITIAL_JOINTS : JointState num :=
  mkJointState (ofZ 0) (ofZ 90) (ofZ 0) (ofZ 0) (ofZ (-90)) (ofZ 0).

Definition JOINT_LIMITS (axis : Axis) : Limit num :=
  match axis with
  | J1 => mkLimit (ofZ (-180)) (ofZ 180)
  | J2 => mkLimit (ofZ 0) (ofZ 160)
  | J3 => mkLimit (ofZ (-180)) (ofZ 90)
  | J4 => mkLimit (ofZ (-360)) (ofZ 360)
  | J5 => mkLimit (ofZ (-180)) (ofZ 180)
  | J6 => mkLimit (ofZ (-360)) (ofZ 360)
  end.

(** Property read [joints[axis]] and the spread update
    [{...prev, [axis]: v}]. *)

Definition getAxis (axis : Axis) (joints : JointState num) : num :=
  match axis with
  | J1 => j1 joints | J2 => j2 joints | J3 => j3 joints
  | J4 => j4 joints | J5 => j5 joints | J6 => j6 joints
  end.

Definition setAxis (axis : Axis) (v : num) (prev : JointState num)
  : JointState num :=
  match axis with
  | J1 => mkJointState v (j2 prev) (j3 prev) (j4 prev) (j5 prev) (j6 prev)
  | J2 => mkJointState (j1 prev) v (j3 prev) (j4 prev) (j5 prev) (j6 prev)
  | J3 => mkJointState (j1 prev) (j2 prev) v (j4 prev) (j5 prev) (j6 prev)
  | J4 => mkJointState (j1 prev) (j2 prev) (j3 prev) v (j5 prev) (j6 prev)
  | J5 => mkJointState (j1 prev) (j2 prev) (j3 prev) (j4 prev) v (j6 prev)
  | J6 => mkJointState (j1 prev) (j2 prev) (j3 prev) (j4 prev) (j5 prev) v
  end.

(** ** utils/kinematics.ts *)

Definition d2r (deg : num) : num := (deg * Math_PI) / ofZ 180.
Definition r2d (rad : num) : num := (rad * ofZ 180) / Math_PI.

Definition DIMS : Dims num :=
  mkDims (ofZ 643) (ofZ 352) (ofZ 1075) (ofZ 1210) (ofZ 0)
         (ofZ 0) (ofZ (-90)).

Definition cleanFloat (n : num) : num :=
  if Math_abs n <? lit_0_001 then ofZ 0 else toFixed2 n.

Definition calculateForwardKinematics (joints : JointState num) : Pose num :=
  let S := d2r (j1 joints) in
  let H := d2r (j2 joints) in
  let V := d2r (j3 joints) in
  let B := d2r (j5 joints) in
  let theta_2 := H in
  let theta_3 := H + V + d2r (j3_offset_deg DIMS) in
  let theta_4 := H + V + B + d2r (j3_offset_deg DIMS) in
  let r_xy := a1 DIMS
              + a2 DIMS * Math_cos theta_2
              + a3 DIMS * Math_cos theta_3
              + d4 DIMS * Math_cos theta_4 in
  let x := Math_cos S * r_xy in
  let y := Math_sin S * r_xy in
  let z := d1 DIMS
           + a2 DIMS * Math_sin theta_2
           + a3 DIMS * Math_sin theta_3
           + d4 DIMS * Math_sin theta_4 in
  let global_pitch_deg := r2d theta_4 in
  let '(rx, ry, rz) :=
    if r_xy >=? ofZ 0
    then (ofZ 180, global_pitch_deg + ofZ 90, ofZ 180)
    else (ofZ 0, ofZ 90 - global_pitch_deg, ofZ 0) in
  let ry := if ry >? ofZ 180 then ry - ofZ 360 else ry in
  let ry := if ry <? ofZ (-180) then ry + ofZ 360 else ry in
  mkPose x y z (cleanFloat rx) (cleanFloat ry) (cleanFloat rz).

(** The local constants of [calculateForwardKinematics], as functions of
    the joint state, to state properties of intermediate values. *)

Definition theta_2 (joints : JointState num) : num := d2r (j2 joints).

Definition theta_3 (joints : JointState num) : num :=
  d2r (j2 joints) + d2r (j3 joints) + d2r (j3_offset_deg DIMS).

Definition theta_4 (joints : JointState num) : num :=
  d2r (j2 joints) + d2r (j3 joints) + d2r (j5 joints)
  + d2r (j3_offset_deg DIMS).

Definition r_xy (joints : JointState num) : num :=
  a1 DIMS
  + a2 DIMS * Math_cos (theta_2 joints)
  + a3 DIMS * Math_cos (theta_3 joints)
  + d4 DIMS * Math_cos (theta_4 joints).

Definition z_height (joints : JointState num) : num :=
  d1 DIMS
  + a2 DIMS * Math_sin (theta_2 joints)
  + a3 DIMS * Math_sin (theta_3 joints)
  + d4 DIMS * Math_sin (theta_4 joints).

Definition global_pitch_deg (joints : JointState num) : num :=
  r2d (theta_4 joints).

(** [(rx, ry, rz)] as left by the [if (r_xy >= 0) ... else ...] statement,
    before normalisation and rounding. *)
Definition frame (joints : JointState num) : num * num * num :=
  if r_xy joints >=? ofZ 0
  then (ofZ 180, global_pitch_deg joints + ofZ 90, ofZ 180)
  else (ofZ 0, ofZ 90 - global_pitch_deg joints, ofZ 0).

Definition rx_raw (joints : JointState num) : num := fst (fst (frame joints)).
Definition ry_raw (joints : JointState num) : num := snd (fst (frame joints)).
Definition rz_raw (joints : JointState num) : num := snd (frame joints).

(** The two statements [if (ry > 180) ry -= 360; if (ry < -180) ry += 360;]. *)
Definition normalizeRy (ry : num) : num :=
  let ry := if ry >? ofZ 180 then ry - ofZ 360 else ry in
  if ry <? ofZ (-180) then ry + ofZ 360 else ry.

Definition ry_normalized (joints : JointState num) : num :=
  normalizeRy (ry_raw joints).

(** ** components/Controls.tsx *)

Definition clamp (axis : Axis) (value : num) : num :=
  let limit := JOINT_LIMITS axis in
  Math_min (Math_max value (min limit)) (max limit).

(** [handleChange axis value] as a transformer of the stored joint state:
    the early [return] leaves the state alone, otherwise the updater
    passed to [setJoints] is applied. *)
Definition handleChange (axis : Axis) (value : num) (prev : JointState num)
  : JointState num :=
  if isNaN value then prev
  else setAxis axis (clamp axis value) prev.

Definition handleReset (prev : JointState num) : JointState num :=
  mkJointState (ofZ 0) (ofZ 90) (ofZ 0) (ofZ 0) (ofZ (-90)) (ofZ 0).

(** ** components/AICopilot.tsx *)

(** What [await generateRobotPose(joints, userMsg)] can do: resolve to a
    joint state, resolve to [null], or reject. *)
Inductive ServiceResult : Type :=
| Resolved (targetJoints : option (JointState num))
| Rejected.

(** The effect of [handleSubmit] on the stored joint state, once the
    request has been sent: [setJoints(targetJoints)] when the answer is
    truthy, nothing otherwise. *)
Definition handleSubmit (res : ServiceResult) (prev : JointState num)
  : JointState num :=
  match res with
  | Resolved (Some targetJoints) => targetJoints
  | Resolved None => prev
  | Rejected => prev
  end.

End Program.

(** ** Instance 1: exact real arithmetic *)

(** [parseFloat(a.toFixed(2))] on reals. [toFixed] works on the magnitude
    (a negative argument is negated and the sign is put in front), takes the
    integer [n] for which [n / 100 - x] is closest to zero and the larger
    [n] on a tie, and [parseFloat] reads the decimal back. The escape of [toFixed] to
    [ToString] for magnitudes of 1e21 and more returns the number itself;
    a double that large is an integer, so rounding it to two decimals
    returns it too and the escape needs no case of its own here. *)
Definition toFixed2_R (a : R) : R :=
  if Rlt_dec a 0
  then (- (IZR (Int_part (100 * (- a) + / 2)) / 100))%R
  else (IZR (Int_part (100 * a + / 2)) / 100)%R.

Definition Rltb (a b : R) : bool := if Rlt_dec a b then true else false.
Definition Rleb (a b : R) : bool := if Rle_dec a b then true else false.

#[export] Instance RealNumber : JSNumber R := {
  ofZ := IZR;
  lit_0_001 := (1 / 1000)%R;
  Math_PI := PI;
  add := Rplus;
  sub := Rminus;
  mul := Rmult;
  div := Rdiv;
  Math_cos := cos;
  Math_sin := sin;
  Math_abs := Rabs;
  Math_min := Rmin;
  Math_max := Rmax;
  lt := Rltb;
  gt := fun a b => Rltb b a;
  ge := fun a b => Rleb b a;
  isNaN := fun _ => false;
  toFixed2 := toFixed2_R
}.

(** The per-axis limit invariant of the data model, over the reals. *)
Definition inLimit (axis : Axis) (v : R) : Prop :=
  (min (JOINT_LIMITS axis) <= v <= max (JOINT_LIMITS axis))%R.

Definition inLimits (joints : JointState R) : Prop :=
  forall axis, inLimit axis (getAxis axis joints).

(** ** Instance 2: IEEE-754 doubles *)

Module Double.

Local Open Scope float_scope.

(** What the program uses of the host's [Math] object and number
    formatting. ECMAScript leaves the values of [Math.cos] and [Math.sin]
    implementation-approximated, and fixes that they are NaN at NaN and at
    both infinities. *)
Record MathImpl : Type := {
  impl_cos : float -> float;
  impl_sin : float -> float;
  impl_toFixed2 : float -> float;       (* parseFloat(a.toFixed(2)) *)
  cos_nonfinite : forall a, is_finite a = false -> is_nan (impl_cos a) = true;
  sin_nonfinite : forall a, is_finite a = false -> is_nan (impl_sin a) = true
}.

(** [Math.PI], the double nearest to pi. *)
Definition PI64 : float := 0x1.921fb54442d18p+1.

(** The value of an integer-valued literal. *)
Definition ofZ64 (n : Z) : float :=
  match n with
  | Z0 => 0
  | Zpos _ => of_uint63 (Uint63.of_Z n)
  | Zneg p => - of_uint63 (Uint63.of_Z (Zpos p))
  end.

Definition isNegZero (a : float) : bool :=
  match classify a with NZero => true | _ => false end.

(** [Math.max] and [Math.min] of two arguments: NaN if either is NaN,
    and -0 counts as smaller than +0. *)
Definition max64 (a b : float) : float :=
  if is_nan a || is_nan b then nan
  else if a <? b then b
  else if b <? a then a
  else if isNegZero a then b else a.

Definition min64 (a b : float) : float :=
  if is_nan a || is_nan b then nan
  else if a <? b then a
  else if b <? a then b
  else if isNegZero a then a else b.

Definition DoubleNumber (M : MathImpl) : JSNumber float := {|
  ofZ := ofZ64;
  lit_0_001 := 1 / 1000;           (* correctly rounded, as the literal is *)
  Math_PI := PI64;
  add := PrimFloat.add;
  sub := PrimFloat.sub;
  mul := PrimFloat.mul;
  div := PrimFloat.div;
  Math_cos := impl_cos M;
  Math_sin := impl_sin M;
  Math_abs := abs;
  Math_min := min64;
  Math_max := max64;
  lt := PrimFloat.ltb;
  gt := fun a b => b <? a;
  ge := fun a b => b <=? a;
  isNaN := is_nan;
  toFixed2 := impl_toFixed2 M
|}.

(** The program at doubles, for a given [Math]. *)
Definition fk64 (M : MathImpl) : JointState float -> Pose float :=
  @calculateForwardKinematics float (DoubleNumber M).

Definition d2r64 (M : MathImpl) : float -> float :=
  @d2r float (DoubleNumber M).

Definition handleChange64 (M : MathImpl)
  : Axis -> float -> JointState float -> JointState float :=
  @handleChange float (DoubleNumber M).

Definition finiteJoints (joints : JointState float) : Prop :=
  is_finite (j1 joints) = true /\ is_finite (j2 joints) = true /\
  is_finite (j3 joints) = true /\ is_finite (j4 joints) = true /\
  is_finite (j5 joints) = true /\ is_finite (j6 joints) = true.

Definition finitePose (p : Pose float) : Prop :=
  is_finite (x p) = true /\ is_finite (y p) = true /\
  is_finite (z p) = true /\ is_finite (rx p) = true /\
  is_finite (ry p) = true /\ is_finite (rz p) = true.

(** Zeros and finite numbers, on the specification side of a double. *)
Definition SFfinite (s : spec_float) : bool :=
  match s with
  | S754_zero _ | S754_finite _ _ _ => true
  | S754_infinity _ | S754_nan => false
  end.

Definition SFnan (s : spec_float) : bool :=
  match s with S754_nan => true | _ => false end.

(** The joint limits read with the comparisons of doubles. *)
Definition inLimits64 (M : MathImpl) (joints : JointState float) : Prop :=
  forall axis,
    (min (@JOINT_LIMITS float (DoubleNumber M) axis) <=? getAxis axis joints)
    = true /\
    (getAxis axis joints <=? max (@JOINT_LIMITS float (DoubleNumber M) axis))
    = true.

(** The double that the literal [1e308] denotes. *)
Definition lit_1e308 : float := 0x1.1ccf385ebc8ap+1023.

(** A [Math] as small as [MathImpl] allows, to show that the interface
    has inhabitants; only the values the standard fixes matter below. *)
Definition minimalMath : MathImpl.
Proof.
  refine {| impl_cos := fun a => if is_finite a then 1 else nan;
            impl_sin := fun a => if is_finite a then 0 else nan;
            impl_toFixed2 := fun a => a |};
    intros a Ha; rewrite Ha; reflexivity.
Defined.

(** Magnitude below [2 ^ k], on the specification side of a double: zero,
    or a mantissa of [d] binary digits with exponent [e] and [d + e <= k].
    Infinities and NaN are below nothing. *)
Definition SFbounded (k : Z) (s : spec_float) : Prop :=
  match s with
  | S754_zero _ => True
  | S754_finite _ m e => (Zpos (digits2_pos m) + e <= k)%Z
  | S754_infinity _ | S754_nan => False
  end.

Definition below (k : Z) (a : float) : Prop := SFbounded k (Prim2SF a).

(** What finiteness of the pose needs of the host: [Math.cos] and
    [Math.sin] of a finite number lie in [-1, 1], and
    [parseFloat(a.toFixed(2))] of a finite number is finite. *)
Definition boundedMath (M : MathImpl) : Prop :=
  (forall a, is_finite a = true -> (abs (impl_cos M a) <=? 1) = true) /\
  (forall a, is_finite a = true -> (abs (impl_sin M a) <=? 1) = true) /\
  (forall a, is_finite a = true -> is_finite (impl_toFixed2 M a) = true).

(** The double that the literal [1e300] denotes. *)
Definition lit_1e300 : float := 0x1.7e43c8800759cp+996.

(** The four angles that [calculateForwardKinematics] reads are at most
    [c] in magnitude. *)
Definition anglesWithin (c : float) (joints : JointState float) : Prop :=
  (abs (j1 joints) <=? c) = true /\ (abs (j2 joints) <=? c) = true /\
  (abs (j3 joints) <=? c) = true /\ (abs (j5 joints) <=? c) = true.

End Double.

(** ** The closed-form model of the specification (section 4.1, steps 2-4),
    over the reals, for comparison with the code *)

Module Model.
Local Open Scope R_scope.

Definition rad (deg : R) : R := deg * PI / 180.

Definition theta2 (j : JointState R) : R := rad (j2 j).
Definition theta3 (j : JointState R) : R := rad (j2 j + j3 j - 90).
Definition theta4 (j : JointState R) : R := rad (j2 j + j3 j + j5 j - 90).

Definition r_xy (j : JointState R) : R :=
  352 + 1075 * cos (theta2 j) + 1210 * cos (theta3 j) + 0 * cos (theta4 j).

Definition px (j : JointState R) : R := cos (rad (j1 j)) * r_xy j.
Definition py (j : JointState R) : R := sin (rad (j1 j)) * r_xy j.
Definition pz (j : JointState R) : R :=
  643 + 1075 * sin (theta2 j) + 1210 * sin (theta3 j) + 0 * sin (theta4 j).

End Model.

(** How an orientation component [v] is reported as [out]: zero below
    0.001 in magnitude, otherwise the hundredth nearest to [v]. *)
Definition reported (v out : R) : Prop :=
  ((Rabs v < 1 / 1000 -> out = 0) /\
   (1 / 1000 <= Rabs v ->
    exists n : Z, out = IZR n / 100 /\ Rabs (out - v) <= 1 / 200))%R.

(** ** components/Controls.tsx: the buttons *)

Section Panel.

Context {num : Type} `{JSNumber num}.
Local Open Scope js_scope.

(** The two step buttons beside a slider:
    [handleChange(axis, Math.max(JOINT_LIMITS[axis].min, joints[axis] - 1))]
    and
    [handleChange(axis, Math.min(JOINT_LIMITS[axis].max, joints[axis] + 1))]. *)
Definition stepDown (axis : Axis) (joints : JointState num) : JointState num :=
  handleChange axis
    (Math_max (min (JOINT_LIMITS axis)) (getAxis axis joints - ofZ 1)) joints.

Definition stepUp (axis : Axis) (joints : JointState num) : JointState num :=
  handleChange axis
    (Math_min (max (JOINT_LIMITS axis)) (getAxis axis joints + ofZ 1)) joints.

(** The preset buttons. *)
Definition POSE_1 : JointState num :=
  mkJointState (ofZ 0) (ofZ 90) (ofZ 0) (ofZ 0) (ofZ (-90)) (ofZ 0).
Definition POSE_2 : JointState num :=
  mkJointState (ofZ 0) (ofZ 155) (ofZ 0) (ofZ 0) (ofZ 0) (ofZ 0).
Definition POSE_3 : JointState num :=
  mkJointState (ofZ 0) (ofZ 10) (ofZ 0) (ofZ 0) (ofZ 0) (ofZ 0).

(** What the user can do on the controls panel. [Change] stands for both
    the slider and the number field, which call [handleChange] with the
    parsed value. *)
Inductive ControlsEvent : Type :=
| Change (axis : Axis) (value : num)
| StepDown (axis : Axis)
| StepUp (axis : Axis)
| Reset
| Preset1
| Preset2
| Preset3.

Definition controls (e : ControlsEvent) (joints : JointState num)
  : JointState num :=
  match e with
  | Change axis value => handleChange axis value joints
  | StepDown axis => stepDown axis joints
  | StepUp axis => stepUp axis joints
  | Reset => handleReset joints
  | Preset1 => POSE_1
  | Preset2 => POSE_2
  | Preset3 => POSE_3
  end.

End Panel.

(** ** JavaScript strings, as sequences of UTF-16 code units *)

Definition JSString : Type := list N.

Definition ofAscii (s : string) : JSString :=
  map N_of_ascii (list_ascii_of_string s).
Arguments ofAscii s%_string_scope.

(** WhiteSpace and LineTerminator of ECMAScript, which [trim] strips: TAB,
    LF, VT, FF, CR, SP, NBSP, U+1680, U+2000 to U+200A, U+2028, U+2029,
    U+202F, U+205F, U+3000 and U+FEFF. *)
Definition isWhiteSpace (c : N) : bool :=
  ((9 <=? c) && (c <=? 13) || (c =? 32) || (c =? 160) || (c =? 5760)
   || (8192 <=? c) && (c <=? 8202) || (c =? 8232) || (c =? 8233)
   || (c =? 8239) || (c =? 8287) || (c =? 12288) || (c =? 65279))%N.

Fixpoint trimStart (s : JSString) : JSString :=
  match s with
  | nil => nil
  | c :: rest => if isWhiteSpace c then trimStart rest else s
  end.

Definition trimEnd (s : JSString) : JSString := rev (trimStart (rev s)).

Definition trim (s : JSString) : JSString := trimEnd (trimStart s).

(** Truthiness of a string: the empty string is the only falsy one. *)
Definition truthy (s : JSString) : bool :=
  match s with nil => false | _ :: _ => true end.

(** ** services/geminiService.ts and components/AICopilot.tsx *)

Inductive Role : Type := user | assistant | system.

(** [isError] is optional in the source: [None] when the field is left
    out. *)
Record ChatMessage : Type := mkChatMessage {
  role : Role;
  content : JSString;
  isError : option bool
}.

Section Copilot.

Context {num : Type} `{JSNumber num}.

(** Number-to-string conversion of template literals. *)
Variable toString : num -> JSString.

(** What [ai.models.generateContent] does: throw, or return a response
    whose [text] may be undefined. *)
Inductive ApiOutcome : Type :=
| ApiThrew
| ApiReturned (text : option JSString).

(** What [JSON.parse(jsonText) as JointState] does: throw, or return a
    value, [None] standing for a falsy one such as [null]. *)
Inductive ParseOutcome : Type :=
| ParseThrew
| Parsed (value : option (JointState num)).

(** [generateRobotPose], given whether the client exists (the key is
    configured) and how the two calls it makes come out. *)
Definition generateRobotPose
  (ai : bool) (api : ApiOutcome) (JSON_parse : JSString -> ParseOutcome)
  : ServiceResult :=
  if negb ai then Rejected
  else
    match api with
    | ApiThrew => Rejected
    | ApiReturned None => Resolved None
    | ApiReturned (Some jsonText) =>
        if negb (truthy jsonText) then Resolved None
        else
          match JSON_parse jsonText with
          | ParseThrew => Rejected
          | Parsed targetJoints => Resolved targetJoints
          end
    end.

(** The state of [App] and of the copilot panel, and the calls of
    [generateRobotPose] that have not settled yet, each with its two
    arguments. *)
Record AppState : Type := mkAppState {
  joints : JointState num;
  isOpen : bool;
  input : JSString;
  loading : bool;
  messages : list ChatMessage;
  inFlight : list (JointState num * JSString)
}.

Definition GREETING : JSString :=
  ofAscii "Hello! I am your AI Robotics Copilot. Ask me to move the robot (e.g., "
  ++ 34%N :: ofAscii "Move to welding position"
  ++ 34%N :: ofAscii " or "
  ++ 34%N :: ofAscii "Wave hello"
  ++ 34%N :: ofAscii ").".

Definition initialApp : AppState :=
  mkAppState INITIAL_JOINTS false nil false
    (mkChatMessage system GREETING None :: nil) nil.

(** [handleSubmit] up to the [await]. *)
Definition submit (st : AppState) : AppState :=
  if negb (truthy (trim (input st))) || loading st then st
  else
    let userMsg := trim (input st) in
    mkAppState (joints st) (isOpen st) nil true
      (messages st ++ mkChatMessage user userMsg None :: nil)
      (inFlight st ++ (joints st, userMsg) :: nil).

(** The message that [handleSubmit] appends once the call has settled. *)
Definition reply (res : ServiceResult) : ChatMessage :=
  match res with
  | Resolved (Some targetJoints) =>
      mkChatMessage assistant
        (ofAscii "Moving robot to requested position."
         ++ 10%N :: ofAscii "Target: J1:" ++ toString (j1 targetJoints)
         ++ 176%N :: ofAscii ", J2:" ++ toString (j2 targetJoints)
         ++ 176%N :: ofAscii ", J3:" ++ toString (j3 targetJoints)
         ++ 176%N :: ofAscii "...")
        None
  | Resolved None =>
      mkChatMessage assistant
        (ofAscii "I couldn't calculate a valid pose for that request. Please try again.")
        (Some true)
  | Rejected =>
      mkChatMessage assistant
        (ofAscii "Error connecting to AI service. Make sure API Key is configured.")
        (Some true)
  end.

(** [handleSubmit] after the [await], for the oldest call in flight. *)
Definition settle (res : ServiceResult) (st : AppState) : AppState :=
  match inFlight st with
  | nil => st
  | _ :: rest =>
      mkAppState (handleSubmit res (joints st)) (isOpen st) (input st) false
        (messages st ++ reply res :: nil) rest
  end.

Inductive Event : Type :=
| OnControls (e : @ControlsEvent num)     (* a click or entry on the controls panel *)
| OnToggle                                (* setIsOpen(!isOpen) *)
| OnInput (text : JSString)               (* setInput(e.target.value) *)
| OnSubmit                                (* the form's onSubmit *)
| OnSettled (res : @ServiceResult num).   (* generateRobotPose settles *)

Definition step (st : AppState) (ev : Event) : AppState :=
  match ev with
  | OnControls e =>
      mkAppState (controls e (joints st)) (isOpen st) (input st) (loading st)
        (messages st) (inFlight st)
  | OnToggle =>
      mkAppState (joints st) (negb (isOpen st)) (input st) (loading st)
        (messages st) (inFlight st)
  | OnInput text =>
      mkAppState (joints st) (isOpen st) text (loading st)
        (messages st) (inFlight st)
  | OnSubmit => submit st
  | OnSettled res => settle res st
  end.

Definition run (st : AppState) (evs : list Event) : AppState :=
  fold_left step evs st.

Definition countRole (r : Role) (msgs : list ChatMessage) : nat :=
  length (filter (fun m => match role m, r with
                           | user, user | assistant, assistant
                           | system, system => true
                           | _, _ => false
                           end) msgs).

End Copilot.

(** What holds of the conversation in every state the application can
    reach: at most one call is in flight and [loading] tells whether one is,
    every user message has its reply or its call in flight, and no blank
    prompt was recorded or sent. *)
Definition wellFormed {num : Type} (st : @AppState num) : Prop :=
  (length (inFlight st) <= 1)%nat /\
  (loading st = true <-> inFlight st <> nil) /\
  countRole user (messages st)
  = (countRole assistant (messages st) + length (inFlight st))%nat /\
  Forall (fun m => role m = user -> truthy (content m) = true) (messages st) /\
  Forall (fun r => truthy (snd r) = true) (inFlight st).

(** ** components/RobotModel.tsx, over the reals *)

Module RobotModel.
Local Open Scope R_scope.

Definition Vec3 : Type := (R * R * R)%type.

Definition vadd (a b : Vec3) : Vec3 :=
  let '(ax, ay, az) := a in let '(bx, by_, bz) := b in
  (ax + bx, ay + by_, az + bz).

(** Rotations about the coordinate axes, as three.js builds them. *)
Definition rotX (t : R) (p : Vec3) : Vec3 :=
  let '(px, py, pz) := p in
  (px, py * cos t - pz * sin t, py * sin t + pz * cos t).

Definition rotY (t : R) (p : Vec3) : Vec3 :=
  let '(px, py, pz) := p in
  (px * cos t + pz * sin t, py, - px * sin t + pz * cos t).

Definition rotZ (t : R) (p : Vec3) : Vec3 :=
  let '(px, py, pz) := p in
  (px * cos t - py * sin t, px * sin t + py * cos t, pz).

(** A [<group position rotation>]: a point given in the group's frame, in
    the frame of its parent. The Euler angles are in three.js's default
    order XYZ, the matrix Rx Ry Rz. *)
Definition group (position rotation : Vec3) (p : Vec3) : Vec3 :=
  let '(ex, ey, ez) := rotation in
  vadd position (rotX ex (rotY ey (rotZ ez p))).

Definition baseHeight : R := 643 / 1000.
Definition j1OffsetX : R := 352 / 1000.
Definition link2Length : R := 1075 / 1000.
Definition link3Length : R := 1210 / 1000.

Definition j2Rot (joints : JointState R) : R := d2r (j2 joints - 90).
Definition j3Rot (joints : JointState R) : R := d2r (j3 joints - 90).

Definition origin : Vec3 := (0, 0, 0).

(** The nested groups of the scene, from the outside in; each function
    takes a point of the named group's frame to the world. *)
Definition fromBase (p : Vec3) : Vec3 :=
  group origin origin (group origin origin p).

Definition fromJ1 (joints : JointState R) (p : Vec3) : Vec3 :=
  fromBase (group (0, baseHeight, 0) (0, d2r (j1 joints), 0) p).

Definition fromShoulder (joints : JointState R) (p : Vec3) : Vec3 :=
  fromJ1 joints (group (0, - (1 / 10), 0) origin p).

Definition fromJ2 (joints : JointState R) (p : Vec3) : Vec3 :=
  fromShoulder joints (group (j1OffsetX, 1 / 10, 0) (0, 0, j2Rot joints) p).

Definition fromLink2 (joints : JointState R) (p : Vec3) : Vec3 :=
  fromJ2 joints (group origin origin p).

Definition fromJ3 (joints : JointState R) (p : Vec3) : Vec3 :=
  fromLink2 joints (group (0, link2Length, 0) (0, 0, j3Rot joints) p).

Definition fromLink3 (joints : JointState R) (p : Vec3) : Vec3 :=
  fromJ3 joints (group origin origin p).

Definition fromJ4 (joints : JointState R) (p : Vec3) : Vec3 :=
  fromLink3 joints (group (0, link3Length, 0) (0, - d2r (j4 joints), 0) p).

Definition fromJ5 (joints : JointState R) (p : Vec3) : Vec3 :=
  fromJ4 joints (group (0, 2 / 10, 0) (0, 0, d2r (j5 joints)) p).

Definition fromJ6 (joints : JointState R) (p : Vec3) : Vec3 :=
  fromJ5 joints (group (0, 28 / 100, 0) (0, - d2r (j6 joints), 0) p).

Definition fromTool (joints : JointState R) (p : Vec3) : Vec3 :=
  fromJ6 joints (group (0, 2 / 100, 0) origin p).

(** The origin of the J4 group, where the forearm ends. *)
Definition wristCentre (joints : JointState R) : Vec3 := fromJ4 joints origin.

(** The centre of the red sphere at the end of the tool. *)
Definition toolTip (joints : JointState R) : Vec3 :=
  fromTool joints (0, 2 / 10, 0).

End RobotModel.

(** * Properties *)

(** ** Facts that hold for every number system *)

Section Generic.

Context {num : Type} `{JSNumber num}.
Local Open Scope js_scope.

(** The returned record in terms of the named intermediate values. *)
Lemma calculateForwardKinematics_unfold (joints : JointState num) :
  calculateForwardKinematics joints =
  mkPose (Math_cos (d2r (j1 joints)) * r_xy joints)
         (Math_sin (d2r (j1 joints)) * r_xy joints)
         (z_height joints)
         (cleanFloat (rx_raw joints))
         (cleanFloat (ry_normalized joints))
         (cleanFloat (rz_raw joints)).
Proof.
  unfold calculateForwardKinematics, ry_normalized, normalizeRy,
    rx_raw, ry_raw, rz_raw, frame, z_height, global_pitch_deg, r_xy,
    theta_2, theta_3, theta_4.
  destruct (ge _ _); reflexivity.
Qed.

Lemma frame_front (joints : JointState num) :
  (r_xy joints >=? ofZ 0) = true ->
  frame joints = (ofZ 180, global_pitch_deg joints + ofZ 90, ofZ 180).
Proof. intros Hge; unfold frame; rewrite Hge; reflexivity. Qed.

Lemma frame_back (joints : JointState num) :
  (r_xy joints >=? ofZ 0) = false ->
  frame joints = (ofZ 0, ofZ 90 - global_pitch_deg joints, ofZ 0).
Proof. intros Hge; unfold frame; rewrite Hge; reflexivity. Qed.

(** C10. The pose does not depend on J4 and J6: two joint states that
    agree on j1, j2, j3 and j5 give the same pose, in all six components. *)
Theorem fk_independent_of_j4_j6 (a b : JointState num) :
  j1 a = j1 b -> j2 a = j2 b -> j3 a = j3 b -> j5 a = j5 b ->
  calculateForwardKinematics a = calculateForwardKinematics b.
Proof.
  intros E1 E2 E3 E5.
  unfold calculateForwardKinematics.
  rewrite E1, E2, E3, E5; reflexivity.
Qed.

(** C8. A NaN value handed to [handleChange] is dropped: the stored joint
    state is the one from before, whatever the axis, and so is the pose
    computed from it. *)
Theorem handleChange_NaN_discarded
  (axis : Axis) (value : num) (prev : JointState num) :
  isNaN value = true ->
  handleChange axis value prev = prev /\
  calculateForwardKinematics (handleChange axis value prev)
  = calculateForwardKinematics prev.
Proof.
  intros Hnan; unfold handleChange; rewrite Hnan; split; reflexivity.
Qed.

(** A value that is not NaN replaces the axis it was entered for, after
    clamping, and leaves the other axes alone. *)
Lemma handleChange_stores_clamped
  (axis : Axis) (value : num) (prev : JointState num) :
  isNaN value = false ->
  handleChange axis value prev = setAxis axis (clamp axis value) prev.
Proof. intros Hnan; unfold handleChange; rewrite Hnan; reflexivity. Qed.

Lemma getAxis_setAxis_same (axis : Axis) (v : num) (prev : JointState num) :
  getAxis axis (setAxis axis v prev) = v.
Proof. destruct axis; reflexivity. Qed.

Lemma getAxis_setAxis_other
  (axis other : Axis) (v : num) (prev : JointState num) :
  axis <> other ->
  getAxis other (setAxis axis v prev) = getAxis other prev.
Proof. destruct axis, other; intros Hne; try reflexivity; congruence. Qed.

Lemma setAxis_getAxis (axis : Axis) (prev : JointState num) :
  setAxis axis (getAxis axis prev) prev = prev.
Proof. destruct axis, prev; reflexivity. Qed.

(** [handleSubmit] stores the service's answer as it is. *)
Lemma handleSubmit_stores_target (t prev : JointState num) :
  handleSubmit (Resolved (Some t)) prev = t.
Proof. reflexivity. Qed.

End Generic.

(** ** Exact real arithmetic *)

Section RealArithmetic.

Local Open Scope R_scope.

Lemma Rltb_true (a b : R) : Rltb a b = true <-> a < b.
Proof. unfold Rltb; destruct (Rlt_dec a b); split; intros; congruence || assumption. Qed.

Lemma Rltb_false (a b : R) : Rltb a b = false <-> b <= a.
Proof.
  unfold Rltb; destruct (Rlt_dec a b); split; intros; try congruence; lra.
Qed.

Lemma Rleb_true (a b : R) : Rleb a b = true <-> a <= b.
Proof. unfold Rleb; destruct (Rle_dec a b); split; intros; congruence || assumption. Qed.

Lemma Rleb_false (a b : R) : Rleb a b = false <-> b < a.
Proof.
  unfold Rleb; destruct (Rle_dec a b); split; intros; try congruence; lra.
Qed.

(** *** Rounding to hundredths *)

Lemma Int_part_bounds (r : R) : IZR (Int_part r) <= r < IZR (Int_part r) + 1.
Proof. destruct (base_Int_part r); lra. Qed.

Lemma Int_part_half (n : Z) : Int_part (IZR n + / 2) = n.
Proof. symmetry; apply Int_part_spec; lra. Qed.

Lemma toFixed2_R_hundredth (n : Z) : toFixed2_R (IZR n / 100) = IZR n / 100.
Proof.
  unfold toFixed2_R; destruct (Rlt_dec (IZR n / 100) 0).
  - replace (100 * - (IZR n / 100) + / 2) with (IZR (- n) + / 2)
      by (rewrite opp_IZR; field).
    rewrite Int_part_half, opp_IZR; field.
  - replace (100 * (IZR n / 100) + / 2) with (IZR n + / 2) by field.
    rewrite Int_part_half; reflexivity.
Qed.

Lemma toFixed2_R_integer (n : Z) : toFixed2_R (IZR n) = IZR n.
Proof.
  replace (IZR n) with (IZR (n * 100) / 100) by (rewrite mult_IZR; field).
  apply toFixed2_R_hundredth.
Qed.

(** The result is a hundredth within half a hundredth of the argument. *)
Lemma toFixed2_R_nearest (v : R) :
  exists n : Z, toFixed2_R v = IZR n / 100 /\ Rabs (toFixed2_R v - v) <= 1 / 200.
Proof.
  unfold toFixed2_R; destruct (Rlt_dec v 0).
  - pose proof (Int_part_bounds (100 * - v + / 2)) as Hb.
    exists (- Int_part (100 * - v + / 2))%Z; split.
    + rewrite opp_IZR; field.
    + apply Rabs_le; lra.
  - pose proof (Int_part_bounds (100 * v + / 2)) as Hb.
    exists (Int_part (100 * v + / 2)); split; [reflexivity|].
    apply Rabs_le; lra.
Qed.


(** *** The program's functions at the reals *)

Lemma d2r_R (deg : R) : d2r deg = deg * PI / 180.
Proof. reflexivity. Qed.

Lemma r2d_R (a : R) : r2d a = a * 180 / PI.
Proof. reflexivity. Qed.

Lemma cleanFloat_R (v : R) :
  cleanFloat v = if Rltb (Rabs v) (1 / 1000) then 0 else toFixed2_R v.
Proof. reflexivity. Qed.

Lemma normalizeRy_R (v : R) :
  normalizeRy v =
  (let w := if Rltb 180 v then v - 360 else v in
   if Rltb w (-180) then w + 360 else w).
Proof. reflexivity. Qed.

Lemma theta_2_R (j : JointState R) : theta_2 j = j2 j * PI / 180.
Proof. reflexivity. Qed.

Lemma theta_3_R (j : JointState R) :
  theta_3 j = j2 j * PI / 180 + j3 j * PI / 180 + -90 * PI / 180.
Proof. reflexivity. Qed.

Lemma theta_4_R (j : JointState R) :
  theta_4 j =
  j2 j * PI / 180 + j3 j * PI / 180 + j5 j * PI / 180 + -90 * PI / 180.
Proof. reflexivity. Qed.

Lemma r_xy_R (j : JointState R) :
  r_xy j = 352 + 1075 * cos (theta_2 j) + 1210 * cos (theta_3 j)
           + 0 * cos (theta_4 j).
Proof. reflexivity. Qed.

Lemma z_height_R (j : JointState R) :
  z_height j = 643 + 1075 * sin (theta_2 j) + 1210 * sin (theta_3 j)
               + 0 * sin (theta_4 j).
Proof. reflexivity. Qed.

(** [theta_4] converted back to degrees is J2 + J3 + J5 - 90. *)
Lemma global_pitch_deg_R (j : JointState R) :
  global_pitch_deg j = j2 j + j3 j + j5 j - 90.
Proof.
  unfold global_pitch_deg; rewrite r2d_R, theta_4_R.
  field; apply PI_neq0.
Qed.

Lemma frame_R_front (j : JointState R) :
  0 <= r_xy j ->
  frame j = (180, global_pitch_deg j + 90, 180).
Proof.
  intros Hr; rewrite (frame_front j) by (apply Rleb_true; exact Hr).
  reflexivity.
Qed.

Lemma frame_R_back (j : JointState R) :
  r_xy j < 0 ->
  frame j = (0, 90 - global_pitch_deg j, 0).
Proof.
  intros Hr; rewrite (frame_back j) by (apply Rleb_false; exact Hr).
  reflexivity.
Qed.

Lemma cleanFloat_integer (n : Z) : cleanFloat (IZR n) = IZR n.
Proof.
  rewrite cleanFloat_R.
  destruct (Rltb (Rabs (IZR n)) (1 / 1000)) eqn:E.
  - apply Rltb_true in E.
    destruct (Z.eq_dec n 0) as [->|Hn]; [reflexivity|].
    exfalso. rewrite <- abs_IZR in E.
    assert (1 <= Z.abs n)%Z by lia.
    assert (1 <= IZR (Z.abs n)) by (apply IZR_le; assumption).
    lra.
  - apply toFixed2_R_integer.
Qed.

(** What [cleanFloat] reports, for every real. *)
Lemma cleanFloat_reported (v : R) : reported v (cleanFloat v).
Proof.
  rewrite cleanFloat_R; split; intros Hv.
  - apply Rltb_true in Hv; rewrite Hv; reflexivity.
  - apply Rltb_false in Hv; rewrite Hv; apply toFixed2_R_nearest.
Qed.


(** *** Orientation frame *)

(** C1. The orientation branch is chosen by the sign of the planar reach.
    Write pitch for theta_4 in degrees, theta_4 * 180 / pi, which is
    J2 + J3 + J5 - 90. With [r_xy >= 0] (0 included) the pose has
    rx = rz = 180 and ry is, before normalisation, pitch + 90; with
    [r_xy < 0] it has rx = rz = 0 and ry is 90 - pitch. The branch leaves
    one of these two triples and no other, and the returned ry is that value
    normalised and rounded. *)
Theorem orientation_branch_by_sign_of_r_xy (j : JointState R) :
  let p := calculateForwardKinematics j in
  let pitch := theta_4 j * 180 / PI in
  pitch = j2 j + j3 j + j5 j - 90 /\
  (0 <= r_xy j ->
   rx p = 180 /\ rz p = 180 /\ ry_raw j = pitch + 90) /\
  (r_xy j < 0 ->
   rx p = 0 /\ rz p = 0 /\ ry_raw j = 90 - pitch) /\
  (frame j = (180, pitch + 90, 180) \/ frame j = (0, 90 - pitch, 0)) /\
  ry p = cleanFloat (normalizeRy (ry_raw j)).
Proof.
  cbv zeta; rewrite calculateForwardKinematics_unfold; cbn [rx ry rz].
  unfold rx_raw, rz_raw, ry_raw, ry_normalized.
  assert (Ep : global_pitch_deg j = theta_4 j * 180 / PI) by reflexivity.
  split; [rewrite <- Ep; apply global_pitch_deg_R|].
  rewrite <- Ep.
  repeat split.
  - rewrite (frame_R_front j) by assumption; apply (cleanFloat_integer 180).
  - rewrite (frame_R_front j) by assumption; apply (cleanFloat_integer 180).
  - rewrite (frame_R_front j) by assumption; reflexivity.
  - rewrite (frame_R_back j) by assumption; apply (cleanFloat_integer 0).
  - rewrite (frame_R_back j) by assumption; apply (cleanFloat_integer 0).
  - rewrite (frame_R_back j) by assumption; reflexivity.
  - destruct (Rle_lt_dec 0 (r_xy j)) as [Hr|Hr];
      [left; apply frame_R_front | right; apply frame_R_back]; exact Hr.
Qed.


(** With the lower arm at J2 = 0 the reach is positive whatever the other
    joints are. *)
Lemma r_xy_front_at_j2_zero (j : JointState R) : j2 j = 0 -> 217 <= r_xy j.
Proof.
  intros Hj; rewrite r_xy_R, theta_2_R, Hj.
  replace (0 * PI / 180) with 0 by field; rewrite cos_0.
  pose proof (COS_bound (theta_3 j)); lra.
Qed.

(** *** Position *)

(** C2. The returned position is the closed form of the specification,
    with d1 = 643, a1 = 352, a2 = 1075, a3 = 1210, d4 = 0 and the elbow
    offset of -90 degrees. *)
Theorem position_matches_closed_form (j : JointState R) :
  let p := calculateForwardKinematics j in
  x p = Model.px j /\ y p = Model.py j /\ z p = Model.pz j /\
  DIMS = mkDims 643 352 1075 1210 0 0 (-90).
Proof.
  cbv zeta; rewrite calculateForwardKinematics_unfold; cbn [x y z].
  assert (E2 : theta_2 j = Model.theta2 j) by reflexivity.
  assert (E3 : theta_3 j = Model.theta3 j)
    by (rewrite theta_3_R; unfold Model.theta3, Model.rad; field).
  assert (E4 : theta_4 j = Model.theta4 j)
    by (rewrite theta_4_R; unfold Model.theta4, Model.rad; field).
  assert (Er : r_xy j = Model.r_xy j)
    by (rewrite r_xy_R, E2, E3, E4; reflexivity).
  repeat split.
  - rewrite Er; reflexivity.
  - rewrite Er; reflexivity.
  - rewrite z_height_R, E2, E3, E4; reflexivity.
Qed.

(** *** Rounding of the output *)

(** C7. Each of rx, ry, rz is reported as 0 when its magnitude before
    rounding is below 0.001 and as the nearest hundredth otherwise, and
    x, y, z are returned as computed. *)
Theorem orientation_rounded_position_exact (j : JointState R) :
  let p := calculateForwardKinematics j in
  reported (rx_raw j) (rx p) /\
  reported (ry_normalized j) (ry p) /\
  reported (rz_raw j) (rz p) /\
  x p = cos (d2r (j1 j)) * r_xy j /\
  y p = sin (d2r (j1 j)) * r_xy j /\
  z p = z_height j.
Proof.
  cbv zeta; rewrite calculateForwardKinematics_unfold; cbn [x y z rx ry rz].
  repeat split; try apply cleanFloat_reported.
  all: intros Hv; apply cleanFloat_reported; exact Hv.
Qed.

(** *** Normalisation of ry *)






(** The lower end is attained inside the joint limits: J3 = -180 with the
    other joints at 0 is reported with ry = -180, so the interval is closed
    on both sides. *)
Lemma ry_minus_180_at_j3_minus_180 :
  inLimits (mkJointState 0 0 (-180) 0 0 0) /\
  ry (calculateForwardKinematics (mkJointState 0 0 (-180) 0 0 0)) = -180.
Proof.
  set (j := mkJointState 0 0 (-180) 0 0 0); split.
  - intros axis; destruct axis; unfold inLimit; cbn; lra.
  - rewrite calculateForwardKinematics_unfold; cbn [ry].
    unfold ry_normalized, ry_raw.
    assert (Hr : 0 <= r_xy j)
      by (pose proof (r_xy_front_at_j2_zero j eq_refl); lra).
    rewrite (frame_R_front j Hr); cbn [fst snd].
    rewrite global_pitch_deg_R; cbn [j j2 j3 j5].
    replace (0 + -180 + 0 - 90 + 90) with (-180) by ring.
    rewrite normalizeRy_R; cbv zeta.
    replace (Rltb 180 (-180)) with false by (symmetry; apply Rltb_false; lra).
    replace (Rltb (-180) (-180)) with false
      by (symmetry; apply Rltb_false; lra).
    apply (cleanFloat_integer (-180)).
Qed.

(** *** Clamping and the joint-limit invariant *)

Lemma clamp_R (axis : Axis) (v : R) :
  clamp axis v =
  Rmin (Rmax v (min (JOINT_LIMITS axis))) (max (JOINT_LIMITS axis)).
Proof. reflexivity. Qed.

Lemma limits_ordered (axis : Axis) :
  min (JOINT_LIMITS (num := R) axis) <= max (JOINT_LIMITS axis).
Proof. destruct axis; cbn; lra. Qed.

(** Whatever the value, the clamped value is within the axis's limits. *)
Lemma clamp_inLimit (axis : Axis) (v : R) : inLimit axis (clamp axis v).
Proof.
  unfold inLimit; rewrite clamp_R.
  pose proof (limits_ordered axis) as Ho.
  set (lo := min (JOINT_LIMITS axis)) in *.
  set (hi := max (JOINT_LIMITS axis)) in *.
  unfold Rmin, Rmax.
  destruct (Rle_dec v lo); destruct (Rle_dec _ hi); lra.
Qed.

(** C9. Clamping a value that is within its axis's limits returns it
    unchanged, clamping twice is clamping once, and entering the stored
    value of an axis again leaves the joint state as it is. *)
Theorem clamp_in_range_is_noop
  (axis : Axis) (v : R) (prev : JointState R) :
  inLimit axis v ->
  clamp axis v = v /\
  clamp axis (clamp axis v) = clamp axis v /\
  (getAxis axis prev = v -> handleChange axis v prev = prev).
Proof.
  intros Hv.
  assert (E : clamp axis v = v).
  { unfold inLimit in Hv; rewrite clamp_R.
    set (lo := min (JOINT_LIMITS axis)) in *.
    set (hi := max (JOINT_LIMITS axis)) in *.
    unfold Rmin, Rmax.
    destruct (Rle_dec v lo); destruct (Rle_dec _ hi); lra. }
  repeat split.
  - exact E.
  - rewrite E; exact E.
  - intros Hg.
    rewrite handleChange_stores_clamped by reflexivity.
    rewrite E, <- Hg; apply setAxis_getAxis.
Qed.

Lemma clamp_in_range_is_noop_example :
  clamp J2 90 = 90 /\
  clamp J2 (clamp J2 90) = clamp J2 90 /\
  (getAxis J2 (mkJointState 0 90 0 0 (-90) 0) = 90 ->
   handleChange J2 90 (mkJointState 0 90 0 0 (-90) 0)
   = mkJointState 0 90 0 0 (-90) 0).
Proof.
  apply (clamp_in_range_is_noop J2 90 (mkJointState 0 90 0 0 (-90) 0)).
  unfold inLimit; cbn; lra.
Defined.

(** Clamping is idempotent on every value, in range or not. *)
Lemma clamp_idempotent (axis : Axis) (v : R) :
  clamp axis (clamp axis v) = clamp axis v.
Proof.
  pose proof (clamp_inLimit axis v) as Hc.
  unfold inLimit in Hc; rewrite (clamp_R axis (clamp axis v)).
  set (lo := min (JOINT_LIMITS axis)) in *.
  set (hi := max (JOINT_LIMITS axis)) in *.
  unfold Rmin, Rmax.
  destruct (Rle_dec (clamp axis v) lo); destruct (Rle_dec _ hi); lra.
Qed.

Lemma INITIAL_JOINTS_inLimits : inLimits INITIAL_JOINTS.
Proof. intros axis; destruct axis; unfold inLimit; cbn; lra. Qed.

Lemma handleReset_inLimits (prev : JointState R) : inLimits (handleReset prev).
Proof. intros axis; destruct axis; unfold inLimit; cbn; lra. Qed.

(** The slider and number-input path keeps the invariant. *)
Lemma handleChange_preserves_inLimits
  (axis : Axis) (value : R) (prev : JointState R) :
  inLimits prev -> inLimits (handleChange axis value prev).
Proof.
  intros Hp other.
  rewrite handleChange_stores_clamped by reflexivity.
  destruct (Axis_eq_dec axis other) as [<-|Hne].
  - rewrite getAxis_setAxis_same; apply clamp_inLimit.
  - rewrite getAxis_setAxis_other by exact Hne; apply Hp.
Qed.

(** C5 fails on the pose-suggestion path. A suggested joint state with
    J2 = 500 is stored as it is and violates the limit of J2, while the same
    value entered through [handleChange] is stored as 160. *)
Theorem handleSubmit_stores_unclamped :
  let target := mkJointState 0 500 0 0 0 0 in
  handleSubmit (Resolved (Some target)) INITIAL_JOINTS = target /\
  ~ inLimits (handleSubmit (Resolved (Some target)) INITIAL_JOINTS) /\
  j2 (handleChange J2 500 INITIAL_JOINTS) = 160.
Proof.
  cbv zeta; repeat split.
  - intros Hl; specialize (Hl J2); unfold inLimit in Hl; cbn in Hl; lra.
  - rewrite handleChange_stores_clamped by reflexivity.
    cbn [setAxis j2]; rewrite clamp_R; cbn [JOINT_LIMITS min max ofZ RealNumber].
    unfold Rmin, Rmax.
    destruct (Rle_dec 500 0); [lra|].
    destruct (Rle_dec 500 160); [lra|reflexivity].
Qed.

(** *** The calibration readings *)

Lemma PI_enclosure : 3.14159 < PI < 3.1416.
Proof.
  pose proof (PI_2_3_7_ineq 2) as [Hlo Hhi].
  unfold sum_f_R0, tg_alt, PI_2_3_7_tg, Ratan_seq in Hlo, Hhi.
  simpl in Hlo, Hhi.
  split; lra.
Qed.

(** Taylor enclosures of sine and cosine on [0, 1]. *)
Lemma sin_cos_enclosure (t : R) :
  0 <= t <= 1 ->
  (t - t * t * t / 6 <= sin t
   <= t - t * t * t / 6 + t * t * t * t * t / 120) /\
  (1 - t * t / 2 + t * t * t * t / 24 - t * t * t * t * t * t / 720 <= cos t
   <= 1 - t * t / 2 + t * t * t * t / 24).
Proof.
  intros [H0 H1].
  destruct (pre_sin_bound t 0) as [Hs1 Hs2]; [lra | lra |].
  destruct (pre_cos_bound t 0) as [_ Hc2]; [lra | lra |].
  destruct (pre_cos_bound t 1) as [Hc1 _]; [lra | lra |].
  unfold sin_approx, cos_approx, sum_f_R0, sin_term, cos_term in *.
  simpl in Hs1, Hs2, Hc1, Hc2.
  repeat split; lra.
Qed.

(** Sine and cosine of 25 degrees. *)
Lemma sin_cos_25_degrees :
  0.4224 < sin (25 * PI / 180) < 0.4227 /\
  0.9062 < cos (25 * PI / 180) < 0.9064.
Proof.
  pose proof PI_enclosure as [Pl Ph].
  set (a := 25 * PI / 180).
  assert (Ha : 0.43633 <= a <= 0.43634) by (unfold a; lra).
  destruct (sin_cos_enclosure a) as [[S1 S2] [C1 C2]]; [lra|].
  assert (H2 : 0.19038 <= a * a <= 0.19040) by nra.
  assert (H3 : 0.08306 <= a * a * a <= 0.08308) by nra.
  assert (H4 : 0.03624 <= a * a * a * a <= 0.03626) by nra.
  assert (H5 : 0.01581 <= a * a * a * a * a <= 0.01583) by nra.
  assert (H6 : 0.00690 <= a * a * a * a * a * a <= 0.00691) by nra.
  repeat split; lra.
Qed.

(** Sine and cosine of 10 degrees. *)
Lemma sin_cos_10_degrees :
  0.1736 < sin (10 * PI / 180) < 0.1737 /\
  0.9848 < cos (10 * PI / 180) < 0.9849.
Proof.
  pose proof PI_enclosure as [Pl Ph].
  set (b := 10 * PI / 180).
  assert (Hb : 0.17453 <= b <= 0.17454) by (unfold b; lra).
  destruct (sin_cos_enclosure b) as [[S1 S2] [C1 C2]]; [lra|].
  assert (H2 : 0.03046 <= b * b <= 0.03047) by nra.
  assert (H3 : 0.005316 <= b * b * b <= 0.005318) by nra.
  assert (H4 : 0.000927 <= b * b * b * b <= 0.000929) by nra.
  assert (H5 : 0.00016 <= b * b * b * b * b <= 0.00017) by nra.
  assert (H6 : 0.000028 <= b * b * b * b * b * b <= 0.000029) by nra.
  repeat split; lra.
Qed.

(** With J1 = 0 the position is (r_xy, 0, z_height). *)
Lemma position_at_j1_zero (j : JointState R) :
  j1 j = 0 ->
  x (calculateForwardKinematics j) = r_xy j /\
  y (calculateForwardKinematics j) = 0 /\
  z (calculateForwardKinematics j) = z_height j.
Proof.
  intros Hj; rewrite calculateForwardKinematics_unfold; cbn [x y z].
  rewrite d2r_R, Hj.
  replace (0 * PI / 180) with 0 by field.
  cbn [mul Math_cos Math_sin RealNumber]; rewrite cos_0, sin_0.
  repeat split; ring.
Qed.

(** Reading 1 (J2 = 90, J5 = -90) is reproduced exactly. *)
Lemma calibration_reading_1 :
  let p := calculateForwardKinematics (mkJointState 0 90 0 0 (-90) 0) in
  x p = 1562 /\ z p = 1718.
Proof.
  cbv zeta; set (j := mkJointState 0 90 0 0 (-90) 0).
  destruct (position_at_j1_zero j eq_refl) as (Ex & _ & Ez).
  rewrite Ex, Ez, r_xy_R, z_height_R, theta_2_R, theta_3_R; cbn [j j2 j3].
  replace (90 * PI / 180) with (PI / 2) by field.
  replace (PI / 2 + 0 * PI / 180 + -90 * PI / 180) with 0 by field.
  rewrite cos_PI2, sin_PI2, cos_0, sin_0; split; ring.
Qed.

(** C3 fails at readings 2 and 3. For reading 2 (J2 = 155) the code returns
    x between -112 and -110 and z between 2193 and 2195, where the reading
    is x = -272, z = 2502; for reading 3 (J2 = 10) it returns x between 1620
    and 1622 and z between -363 and -361, where the reading is x = 1877,
    z = -608. *)
Theorem calibration_readings_2_3_not_reproduced :
  let p2 := calculateForwardKinematics (mkJointState 0 155 0 0 0 0) in
  let p3 := calculateForwardKinematics (mkJointState 0 10 0 0 0 0) in
  (-112 < x p2 < -110 /\ 2193 < z p2 < 2195) /\
  (1620 < x p3 < 1622 /\ -363 < z p3 < -361).
Proof.
  cbv zeta; split.
  - set (j := mkJointState 0 155 0 0 0 0).
    destruct (position_at_j1_zero j eq_refl) as (Ex & _ & Ez).
    rewrite Ex, Ez, r_xy_R, z_height_R, theta_2_R, theta_3_R; cbn [j j2 j3].
    replace (155 * PI / 180) with (PI - 25 * PI / 180) by field.
    replace (PI - 25 * PI / 180 + 0 * PI / 180 + -90 * PI / 180)
      with (PI / 2 - 25 * PI / 180) by field.
    rewrite Rtrigo_facts.cos_pi_minus, sin_PI_x, cos_shift, sin_shift.
    destruct sin_cos_25_degrees as [[? ?] [? ?]].
    repeat split; lra.
  - set (j := mkJointState 0 10 0 0 0 0).
    destruct (position_at_j1_zero j eq_refl) as (Ex & _ & Ez).
    rewrite Ex, Ez, r_xy_R, z_height_R, theta_2_R, theta_3_R; cbn [j j2 j3].
    replace (10 * PI / 180 + 0 * PI / 180 + -90 * PI / 180)
      with (- (PI / 2 - 10 * PI / 180)) by field.
    rewrite cos_neg, sin_neg, cos_shift, sin_shift.
    destruct sin_cos_10_degrees as [[? ?] [? ?]].
    repeat split; lra.
Qed.

End RealArithmetic.

(** ** IEEE-754 doubles *)

Section Doubles.

Import Double.
Local Open Scope float_scope.

(** *** Classification of doubles through their specification *)

Lemma SFcompare_finite_refl (s : bool) (m : positive) (e : Z) :
  SFcompare (S754_finite s m e) (S754_finite s m e) = Some Eq.
Proof.
  cbn [SFcompare]; rewrite Z.compare_refl.
  destruct s; rewrite Pos.compare_cont_refl; reflexivity.
Qed.

Lemma is_nan_Prim2SF (a : float) : is_nan a = SFnan (Prim2SF a).
Proof.
  unfold is_nan; rewrite FloatAxioms.eqb_spec; unfold SFeqb.
  destruct (Prim2SF a) as [s|s| |s m e].
  - reflexivity.
  - destruct s; reflexivity.
  - reflexivity.
  - rewrite SFcompare_finite_refl; reflexivity.
Qed.

Lemma is_finite_Prim2SF (a : float) : is_finite a = SFfinite (Prim2SF a).
Proof.
  unfold is_finite, is_infinity.
  rewrite is_nan_Prim2SF, FloatAxioms.eqb_spec, abs_spec.
  replace (Prim2SF infinity) with (S754_infinity false) by reflexivity.
  destruct (Prim2SF a) as [s|s| |s m e]; reflexivity.
Qed.

Lemma is_nan_not_finite (a : float) : is_nan a = true -> is_finite a = false.
Proof.
  rewrite is_nan_Prim2SF, is_finite_Prim2SF.
  destruct (Prim2SF a); cbn; congruence.
Qed.

(** *** NaN and infinities through the arithmetic *)

Lemma mul_nan_l (a b : float) : is_nan a = true -> is_nan (a * b) = true.
Proof.
  rewrite !is_nan_Prim2SF, FloatAxioms.mul_spec; unfold SF64mul.
  destruct (Prim2SF a); cbn; congruence.
Qed.

Lemma mul_nan_r (a b : float) : is_nan b = true -> is_nan (a * b) = true.
Proof.
  rewrite !is_nan_Prim2SF, FloatAxioms.mul_spec; unfold SF64mul.
  destruct (Prim2SF b); cbn; try congruence.
  destruct (Prim2SF a); reflexivity.
Qed.

Lemma add_nan_l (a b : float) : is_nan a = true -> is_nan (a + b) = true.
Proof.
  rewrite !is_nan_Prim2SF, FloatAxioms.add_spec; unfold SF64add.
  destruct (Prim2SF a); cbn; congruence.
Qed.

Lemma add_nan_r (a b : float) : is_nan b = true -> is_nan (a + b) = true.
Proof.
  rewrite !is_nan_Prim2SF, FloatAxioms.add_spec; unfold SF64add.
  destruct (Prim2SF b); cbn; try congruence.
  destruct (Prim2SF a); reflexivity.
Qed.

(** A sum with an infinite or NaN term is infinite or NaN. *)
Lemma add_not_finite_l (a b : float) :
  is_finite a = false -> is_finite (a + b) = false.
Proof.
  rewrite !is_finite_Prim2SF, FloatAxioms.add_spec; unfold SF64add.
  destruct (Prim2SF a) as [s|s| |s m e]; cbn [SFfinite]; try congruence;
    intros _.
  - destruct (Prim2SF b) as [t|t| |t n f]; cbn; try reflexivity.
    destruct s, t; reflexivity.
  - reflexivity.
Qed.

Lemma add_not_finite_r (a b : float) :
  is_finite b = false -> is_finite (a + b) = false.
Proof.
  rewrite !is_finite_Prim2SF, FloatAxioms.add_spec; unfold SF64add.
  destruct (Prim2SF b) as [t|t| |t n f]; cbn [SFfinite]; try congruence;
    intros _.
  - destruct (Prim2SF a) as [s|s| |s m e]; cbn; try reflexivity.
    destruct s, t; reflexivity.
  - destruct (Prim2SF a); reflexivity.
Qed.

(** *** Overflow of the degree-to-radian conversion *)

Lemma fk64_position (M : MathImpl) (j : JointState float) :
  x (fk64 M j)
  = impl_cos M (d2r64 M (j1 j)) * @r_xy float (DoubleNumber M) j /\
  y (fk64 M j)
  = impl_sin M (d2r64 M (j1 j)) * @r_xy float (DoubleNumber M) j.
Proof.
  unfold fk64; rewrite calculateForwardKinematics_unfold; split; reflexivity.
Qed.

(** The planar reach is NaN as soon as the conversion of J2, J3 or J5 is
    not finite. *)
Lemma r_xy_nan_when_conversion_overflows (M : MathImpl) (j : JointState float) :
  is_finite (d2r64 M (j2 j)) = false \/
  is_finite (d2r64 M (j3 j)) = false \/
  is_finite (d2r64 M (j5 j)) = false ->
  is_nan (@r_xy float (DoubleNumber M) j) = true.
Proof.
  unfold r_xy, theta_2, theta_3, theta_4, d2r64.
  cbn [add mul Math_cos DoubleNumber].
  intros [H2 | [H3 | H5]].
  - do 2 apply add_nan_l; apply add_nan_r, mul_nan_r, cos_nonfinite, H2.
  - apply add_nan_l, add_nan_r, mul_nan_r, cos_nonfinite.
    apply add_not_finite_l, add_not_finite_r, H3.
  - apply add_nan_r, mul_nan_r, cos_nonfinite.
    apply add_not_finite_l, add_not_finite_r, H5.
Qed.

(** When the conversion [(deg * Math.PI) / 180] of J1, J2, J3 or J5 is not
    finite, the returned x and y are NaN, for every [Math] library. *)
Lemma position_nan_when_conversion_overflows
  (M : MathImpl) (j : JointState float) :
  is_finite (d2r64 M (j1 j)) = false \/
  is_finite (d2r64 M (j2 j)) = false \/
  is_finite (d2r64 M (j3 j)) = false \/
  is_finite (d2r64 M (j5 j)) = false ->
  is_nan (x (fk64 M j)) = true /\ is_nan (y (fk64 M j)) = true.
Proof.
  intros Hof; destruct (fk64_position M j) as [Ex Ey]; rewrite Ex, Ey.
  destruct Hof as [H1 | Hrest].
  - split; apply mul_nan_l; [apply cos_nonfinite | apply sin_nonfinite];
      exact H1.
  - split; apply mul_nan_r, r_xy_nan_when_conversion_overflows, Hrest.
Qed.

Lemma position_nan_when_conversion_overflows_example :
  is_nan (x (fk64 minimalMath (mkJointState lit_1e308 0 0 0 0 0))) = true /\
  is_nan (y (fk64 minimalMath (mkJointState lit_1e308 0 0 0 0 0))) = true.
Proof.
  apply (position_nan_when_conversion_overflows minimalMath
           (mkJointState lit_1e308 0 0 0 0 0)).
  left; vm_compute; reflexivity.
Defined.

(** The joint state with J1 = 1e308 is finite, its conversion to radians
    overflows, and x comes out as NaN whatever [Math.cos] is. *)
Lemma x_nan_at_j1_1e308 (M : MathImpl) :
  finiteJoints (mkJointState lit_1e308 0 0 0 0 0) /\
  d2r64 M lit_1e308 = infinity /\
  is_nan (x (fk64 M (mkJointState lit_1e308 0 0 0 0 0))) = true.
Proof.
  split; [|split].
  - repeat split; vm_compute; reflexivity.
  - vm_compute; reflexivity.
  - destruct (fk64_position M (mkJointState lit_1e308 0 0 0 0 0)) as [Ex _].
    rewrite Ex; apply mul_nan_l, cos_nonfinite; vm_compute; reflexivity.
Qed.

(** C6 as stated is false: with no [Math] library does every finite joint
    state give a finite pose. *)
Lemma finite_input_without_finite_pose :
  ~ (exists M : MathImpl,
       forall j : JointState float, finiteJoints j -> finitePose (fk64 M j)).
Proof.
  intros [M Hall].
  destruct (x_nan_at_j1_1e308 M) as (Hfin & _ & Hnan).
  destruct (Hall _ Hfin) as [Hx _].
  apply is_nan_not_finite in Hnan; congruence.
Qed.

(** *** The controls at doubles *)

(** Values as the slider delivers them: 500 on J2 is stored as 160, the
    empty number field ([parseFloat] gives NaN) changes nothing, and -0 on
    J2 is stored as +0 ([Math.max(-0, 0)] is +0). *)
Lemma handleChange64_examples (M : MathImpl) :
  let initial := @INITIAL_JOINTS float (DoubleNumber M) in
  j2 (handleChange64 M J2 500 initial) = 160 /\
  j2 (handleChange64 M J2 nan initial) = 90 /\
  j2 (handleChange64 M J2 (-0) initial) = 0.
Proof. repeat split; vm_compute; reflexivity. Qed.

(** C8 at doubles: NaN entered for J1 leaves the initial joints in place. *)
Lemma handleChange_NaN_discarded_example :
  @handleChange float (DoubleNumber minimalMath) J1 nan
    (@INITIAL_JOINTS float (DoubleNumber minimalMath))
  = @INITIAL_JOINTS float (DoubleNumber minimalMath) /\
  @calculateForwardKinematics float (DoubleNumber minimalMath)
    (@handleChange float (DoubleNumber minimalMath) J1 nan
       (@INITIAL_JOINTS float (DoubleNumber minimalMath)))
  = @calculateForwardKinematics float (DoubleNumber minimalMath)
      (@INITIAL_JOINTS float (DoubleNumber minimalMath)).
Proof.
  apply (@handleChange_NaN_discarded float (DoubleNumber minimalMath)).
  reflexivity.
Defined.

End Doubles.

(** C10 at a pair of joint states that differ in J4 and J6 only. *)
Lemma fk_independent_of_j4_j6_example :
  calculateForwardKinematics (mkJointState 0 90 0 0 (-90) 0)%R
  = calculateForwardKinematics (mkJointState 0 90 0 45 (-90) 30)%R.
Proof.
  apply (@fk_independent_of_j4_j6 R RealNumber); reflexivity.
Defined.

(** * Further properties of the code *)

(** ** Kinematics, over the reals *)

Section KinematicsFacts.

Local Open Scope R_scope.

(** X2. [cleanFloat] is idempotent: a reported value is reported as
    itself. *)
Theorem cleanFloat_idempotent (v : R) :
  cleanFloat (cleanFloat v) = cleanFloat v.
Proof.
  rewrite (cleanFloat_R v).
  destruct (Rltb (Rabs v) (1 / 1000)).
  - apply (cleanFloat_integer 0).
  - destruct (toFixed2_R_nearest v) as (n & En & _); rewrite En.
    rewrite cleanFloat_R.
    destruct (Rltb (Rabs (IZR n / 100)) (1 / 1000)) eqn:E.
    + apply Rltb_true in E.
      destruct (Z.eq_dec n 0) as [->|Hn]; [lra|].
      exfalso.
      assert (H1 : (1 <= Z.abs n)%Z) by lia.
      apply IZR_le in H1; rewrite abs_IZR in H1.
      unfold Rdiv in E; rewrite Rabs_mult in E.
      rewrite (Rabs_pos_eq (/ 100)) in E by lra.
      lra.
    + apply toFixed2_R_hundredth.
Qed.

(** X3. The reported value is within 0.005 of the value computed. *)
Theorem cleanFloat_error_bound (v : R) : Rabs (cleanFloat v - v) <= 1 / 200.
Proof.
  rewrite cleanFloat_R.
  destruct (Rltb (Rabs v) (1 / 1000)) eqn:E.
  - apply Rltb_true in E.
    replace (0 - v) with (- v) by ring; rewrite Rabs_Ropp; lra.
  - destruct (toFixed2_R_nearest v) as (n & _ & Hn); exact Hn.
Qed.

Lemma toFixed2_R_opp (v : R) : toFixed2_R (- v) = - toFixed2_R v.
Proof.
  unfold toFixed2_R.
  destruct (Rlt_dec (- v) 0) as [Hn|Hn]; destruct (Rlt_dec v 0) as [Hv|Hv].
  - lra.
  - rewrite Ropp_involutive; reflexivity.
  - rewrite Ropp_involutive; reflexivity.
  - assert (v = 0) by lra; subst v.
    rewrite Ropp_0, Rmult_0_r, Rplus_0_l.
    replace (/ 2) with (IZR 0 + / 2) by (simpl; ring).
    rewrite Int_part_half; simpl; lra.
Qed.

(** X4. [cleanFloat] is odd: a value and its opposite are reported as
    opposites, rounding being done on the magnitude. *)
Theorem cleanFloat_opp (v : R) : cleanFloat (- v) = - cleanFloat v.
Proof.
  rewrite !cleanFloat_R, Rabs_Ropp.
  destruct (Rltb (Rabs v) (1 / 1000)); [ring | apply toFixed2_R_opp].
Qed.

(** X5. Normalisation changes ry by -360, 0 or 360, never by both steps,
    and its result lies in [-180, 180] exactly when its argument lies in
    [-540, 540]. *)
Theorem normalizeRy_characterised (v : R) :
  (normalizeRy v = v - 360 \/ normalizeRy v = v \/ normalizeRy v = v + 360) /\
  (-180 <= v <= 180 -> normalizeRy v = v) /\
  (-180 <= normalizeRy v <= 180 <-> -540 <= v <= 540).
Proof.
  rewrite normalizeRy_R; cbv zeta.
  destruct (Rltb 180 v) eqn:E1;
    [apply Rltb_true in E1 | apply Rltb_false in E1].
  - destruct (Rltb (v - 360) (-180)) eqn:E2;
      [apply Rltb_true in E2 | apply Rltb_false in E2].
    + lra.
    + repeat split; intros; lra.
  - destruct (Rltb v (-180)) eqn:E2;
      [apply Rltb_true in E2 | apply Rltb_false in E2].
    + repeat split; intros; lra.
    + repeat split; intros; lra.
Qed.

(** X6. The position is a cylindrical construction: the horizontal
    distance of the tool from the base axis is the magnitude of the planar
    reach, whatever J1 is. *)
Theorem horizontal_distance_is_reach (j : JointState R) :
  let p := calculateForwardKinematics j in
  x p * x p + y p * y p = r_xy j * r_xy j.
Proof.
  cbv zeta; rewrite calculateForwardKinematics_unfold; cbn [x y].
  cbn [mul Math_cos Math_sin RealNumber].
  pose proof (sin2_cos2 (d2r (j1 j))) as Hsc; unfold Rsqr in Hsc.
  replace (cos (d2r (j1 j)) * r_xy j * (cos (d2r (j1 j)) * r_xy j)
           + sin (d2r (j1 j)) * r_xy j * (sin (d2r (j1 j)) * r_xy j))
    with (r_xy j * r_xy j
          * (sin (d2r (j1 j)) * sin (d2r (j1 j))
             + cos (d2r (j1 j)) * cos (d2r (j1 j)))) by ring.
  rewrite Hsc; ring.
Qed.

(** X7. The work envelope: for every joint state the planar reach lies in
    [-1933, 2637], the height in [-1642, 2928], and x and y in
    [-2637, 2637]. *)
Theorem work_envelope (j : JointState R) :
  let p := calculateForwardKinematics j in
  -1933 <= r_xy j <= 2637 /\
  -1642 <= z p <= 2928 /\
  -2637 <= x p <= 2637 /\
  -2637 <= y p <= 2637.
Proof.
  cbv zeta; rewrite calculateForwardKinematics_unfold; cbn [x y z].
  cbn [mul Math_cos Math_sin RealNumber].
  assert (Hr : -1933 <= r_xy j <= 2637).
  { rewrite r_xy_R.
    pose proof (COS_bound (theta_2 j)); pose proof (COS_bound (theta_3 j)).
    lra. }
  assert (Hz : -1642 <= z_height j <= 2928).
  { rewrite z_height_R.
    pose proof (SIN_bound (theta_2 j)); pose proof (SIN_bound (theta_3 j)).
    lra. }
  pose proof (COS_bound (d2r (j1 j))) as Hc.
  pose proof (SIN_bound (d2r (j1 j))) as Hs.
  repeat split; try lra; nra.
Qed.

(** X8. Law of cosines at the elbow: the distance of the tool from the
    shoulder pivot (at reach 352 and height 643) depends on J3 alone, and
    lies between 135 and 2285. *)
Theorem reach_from_shoulder (j : JointState R) :
  let p := calculateForwardKinematics j in
  let d2 := (r_xy j - 352) * (r_xy j - 352) + (z p - 643) * (z p - 643) in
  d2 = 1075 * 1075 + 1210 * 1210 + 2 * 1075 * 1210 * sin (d2r (j3 j)) /\
  135 * 135 <= d2 <= 2285 * 2285.
Proof.
  cbv zeta; rewrite calculateForwardKinematics_unfold; cbn [z].
  rewrite r_xy_R, z_height_R.
  set (t2 := theta_2 j); set (t3 := theta_3 j).
  assert (Hd : cos t2 * cos t3 + sin t2 * sin t3 = sin (d2r (j3 j))).
  { rewrite <- cos_minus.
    replace (t2 - t3) with (PI / 2 - d2r (j3 j))
      by (unfold t2, t3; rewrite theta_2_R, theta_3_R, d2r_R; field).
    apply cos_shift. }
  pose proof (sin2_cos2 t2) as H2; pose proof (sin2_cos2 t3) as H3.
  unfold Rsqr in H2, H3.
  assert (E : (352 + 1075 * cos t2 + 1210 * cos t3 + 0 * cos (theta_4 j) - 352)
              * (352 + 1075 * cos t2 + 1210 * cos t3 + 0 * cos (theta_4 j) - 352)
              + (643 + 1075 * sin t2 + 1210 * sin t3 + 0 * sin (theta_4 j) - 643)
                * (643 + 1075 * sin t2 + 1210 * sin t3 + 0 * sin (theta_4 j) - 643)
              = 1075 * 1075 + 1210 * 1210
                + 2 * 1075 * 1210 * sin (d2r (j3 j))).
  { rewrite <- Hd.
    transitivity
      (1075 * 1075 * (sin t2 * sin t2 + cos t2 * cos t2)
       + 1210 * 1210 * (sin t3 * sin t3 + cos t3 * cos t3)
       + 2 * 1075 * 1210 * (cos t2 * cos t3 + sin t2 * sin t3));
      [ring | rewrite H2, H3; ring]. }
  rewrite E; split; [reflexivity|].
  pose proof (SIN_bound (d2r (j3 j))); lra.
Qed.

End KinematicsFacts.

(** ** The controls panel, for every number system *)

Section PanelFacts.

Context {num : Type} `{JSNumber num}.
Local Open Scope js_scope.

Lemma handleChange_other_axis
  (axis other : Axis) (value : num) (prev : JointState num) :
  axis <> other ->
  getAxis other (handleChange axis value prev) = getAxis other prev.
Proof.
  intros Hne; unfold handleChange; destruct (isNaN value); [reflexivity|].
  apply getAxis_setAxis_other, Hne.
Qed.

(** X10. A slider, a number field and the step buttons of one axis never
    change the angle of another axis, whatever value is entered. *)
Theorem controls_leave_other_axes
  (axis other : Axis) (value : num) (joints : JointState num) :
  axis <> other ->
  getAxis other (controls (Change axis value) joints) = getAxis other joints /\
  getAxis other (controls (StepDown axis) joints) = getAxis other joints /\
  getAxis other (controls (StepUp axis) joints) = getAxis other joints.
Proof.
  intros Hne; cbn [controls]; unfold stepDown, stepUp.
  repeat split; apply handleChange_other_axis, Hne.
Qed.

Lemma handleChange_roll_keeps_pose
  (axis : Axis) (value : num) (prev : JointState num) :
  axis = J4 \/ axis = J6 ->
  calculateForwardKinematics (handleChange axis value prev)
  = calculateForwardKinematics prev.
Proof.
  intros Hax; unfold handleChange; destruct (isNaN value); [reflexivity|].
  destruct Hax as [-> | ->]; reflexivity.
Qed.

(** X11. Moving J4 or J6 on the controls panel, by slider, number field or
    step button, leaves the displayed pose as it is. *)
Theorem roll_controls_keep_pose
  (axis : Axis) (value : num) (joints : JointState num) :
  axis = J4 \/ axis = J6 ->
  calculateForwardKinematics (controls (Change axis value) joints)
  = calculateForwardKinematics joints /\
  calculateForwardKinematics (controls (StepDown axis) joints)
  = calculateForwardKinematics joints /\
  calculateForwardKinematics (controls (StepUp axis) joints)
  = calculateForwardKinematics joints.
Proof.
  intros Hax; cbn [controls]; unfold stepDown, stepUp.
  repeat split; apply handleChange_roll_keeps_pose, Hax.
Qed.

(** X12. The swivel J1 enters x and y only: joint states that agree on J2,
    J3 and J5 have the same planar reach, height and orientation. *)
Theorem swivel_enters_x_y_only (a b : JointState num) :
  j2 a = j2 b -> j3 a = j3 b -> j5 a = j5 b ->
  r_xy a = r_xy b /\
  z (calculateForwardKinematics a) = z (calculateForwardKinematics b) /\
  rx (calculateForwardKinematics a) = rx (calculateForwardKinematics b) /\
  ry (calculateForwardKinematics a) = ry (calculateForwardKinematics b) /\
  rz (calculateForwardKinematics a) = rz (calculateForwardKinematics b).
Proof.
  intros E2 E3 E5.
  rewrite !calculateForwardKinematics_unfold; cbn [z rx ry rz].
  unfold ry_normalized, rx_raw, ry_raw, rz_raw, frame, global_pitch_deg,
    z_height, r_xy, theta_2, theta_3, theta_4.
  rewrite E2, E3, E5; repeat split; reflexivity.
Qed.

End PanelFacts.

Lemma controls_leave_other_axes_example :
  getAxis J3 (controls (Change J2 500%R) (@INITIAL_JOINTS R _))
  = getAxis J3 (@INITIAL_JOINTS R _) /\
  getAxis J3 (controls (StepDown J2) (@INITIAL_JOINTS R _))
  = getAxis J3 (@INITIAL_JOINTS R _) /\
  getAxis J3 (controls (StepUp J2) (@INITIAL_JOINTS R _))
  = getAxis J3 (@INITIAL_JOINTS R _).
Proof.
  apply (@controls_leave_other_axes R RealNumber J2 J3); discriminate.
Defined.

Lemma roll_controls_keep_pose_example :
  calculateForwardKinematics (controls (Change J4 45%R) (@INITIAL_JOINTS R _))
  = calculateForwardKinematics (@INITIAL_JOINTS R _) /\
  calculateForwardKinematics (controls (StepDown J4) (@INITIAL_JOINTS R _))
  = calculateForwardKinematics (@INITIAL_JOINTS R _) /\
  calculateForwardKinematics (controls (StepUp J4) (@INITIAL_JOINTS R _))
  = calculateForwardKinematics (@INITIAL_JOINTS R _).
Proof.
  apply (@roll_controls_keep_pose R RealNumber J4); left; reflexivity.
Defined.

Lemma swivel_enters_x_y_only_example :
  r_xy (mkJointState 0 90 0 0 (-90) 0)%R
  = r_xy (mkJointState 120 90 0 0 (-90) 0)%R /\
  z (calculateForwardKinematics (mkJointState 0 90 0 0 (-90) 0)%R)
  = z (calculateForwardKinematics (mkJointState 120 90 0 0 (-90) 0)%R) /\
  rx (calculateForwardKinematics (mkJointState 0 90 0 0 (-90) 0)%R)
  = rx (calculateForwardKinematics (mkJointState 120 90 0 0 (-90) 0)%R) /\
  ry (calculateForwardKinematics (mkJointState 0 90 0 0 (-90) 0)%R)
  = ry (calculateForwardKinematics (mkJointState 120 90 0 0 (-90) 0)%R) /\
  rz (calculateForwardKinematics (mkJointState 0 90 0 0 (-90) 0)%R)
  = rz (calculateForwardKinematics (mkJointState 120 90 0 0 (-90) 0)%R).
Proof.
  apply (@swivel_enters_x_y_only R RealNumber); reflexivity.
Defined.

(** ** The application as a whole, for every number system *)

Section AppFacts.

Context {num : Type} `{JSNumber num}.
Variable toString : num -> JSString.

Lemma countRole_snoc (r : Role) (msgs : list ChatMessage) (m : ChatMessage) :
  countRole r (msgs ++ m :: nil)
  = (countRole r msgs + countRole r (m :: nil))%nat.
Proof.
  unfold countRole; rewrite filter_app, length_app; reflexivity.
Qed.

Lemma role_reply (res : @ServiceResult num) : role (reply toString res) = assistant.
Proof. destruct res as [[t|]|]; reflexivity. Qed.

Lemma run_snoc (st : @AppState num) (evs : list Event) (ev : Event) :
  run toString st (evs ++ ev :: nil) = step toString (run toString st evs) ev.
Proof. unfold run; rewrite fold_left_app; reflexivity. Qed.

Lemma initialApp_wellFormed : wellFormed (@initialApp num _).
Proof.
  unfold wellFormed, initialApp; cbn [inFlight loading messages length].
  repeat split; try reflexivity; try lia.
  - intros Hne; contradiction Hne; reflexivity.
  - constructor; [cbn; discriminate | constructor].
  - constructor.
Qed.

Lemma step_wellFormed (st : @AppState num) (ev : Event) :
  wellFormed st -> wellFormed (step toString st ev).
Proof.
  intros (Hlen & Hload & Hcount & Hmsgs & Hreqs).
  destruct ev as [e| |text| |res]; cbn [step].
  - repeat split; cbn [inFlight loading messages]; try assumption;
      apply Hload.
  - repeat split; cbn [inFlight loading messages]; try assumption;
      apply Hload.
  - repeat split; cbn [inFlight loading messages]; try assumption;
      apply Hload.
  - unfold submit.
    destruct (negb (truthy (trim (input st))) || loading st) eqn:Eg.
    + repeat split; try assumption; apply Hload.
    + apply orb_false_elim in Eg; destruct Eg as [Et El].
      apply negb_false_iff in Et.
      assert (Hnil : inFlight st = nil).
      { destruct (inFlight st) as [|r rest] eqn:Ei; [reflexivity|].
        assert (loading st = true) by (apply Hload; discriminate).
        congruence. }
      rewrite Hnil in *.
      repeat split; cbn [inFlight loading messages app length].
      * lia.
      * discriminate.
      * rewrite !countRole_snoc, Hcount; cbn; lia.
      * apply Forall_app; split; [assumption|].
        constructor; [intros _; exact Et | constructor].
      * constructor; [exact Et | constructor].
  - unfold settle.
    destruct (inFlight st) as [|r rest] eqn:Ei.
    + unfold wellFormed; rewrite Ei; repeat split; try assumption;
        apply Hload.
    + assert (rest = nil) by (destruct rest; [reflexivity | cbn in Hlen; lia]).
      subst rest.
      repeat split; cbn [inFlight loading messages length].
      * lia.
      * discriminate.
      * intros Hne; contradiction Hne; reflexivity.
      * rewrite !countRole_snoc, Hcount.
        unfold countRole at 2 4; cbn [filter]; rewrite role_reply; cbn; lia.
      * apply Forall_app; split; [assumption|].
        constructor; [rewrite role_reply; discriminate | constructor].
      * constructor.
Qed.

Lemma run_wellFormed (st : @AppState num) (evs : list Event) :
  wellFormed st -> wellFormed (run toString st evs).
Proof.
  revert st; induction evs as [|ev evs IH]; intros st Hst; [exact Hst|].
  apply (IH (step toString st ev)), step_wellFormed, Hst.
Qed.

(** X13. Whatever the user and the service do, at most one call of
    [generateRobotPose] is in flight, and [loading] is true exactly while
    one is. *)
Theorem single_call_in_flight (evs : list Event) :
  let st := run toString (@initialApp num _) evs in
  (length (inFlight st) <= 1)%nat /\
  (loading st = true <-> length (inFlight st) = 1%nat).
Proof.
  cbv zeta.
  destruct (run_wellFormed initialApp evs initialApp_wellFormed)
    as (Hlen & Hload & _).
  split; [exact Hlen|].
  rewrite Hload.
  destruct (inFlight (run toString initialApp evs)) as [|r rest].
  - split; [intros Hne; contradiction Hne; reflexivity | discriminate].
  - split; [intros _; cbn in *; lia | discriminate].
Qed.

Lemma step_countRole_system (st : @AppState num) (ev : Event) :
  countRole system (messages (step toString st ev))
  = countRole system (messages st).
Proof.
  destruct ev as [e| |text| |res]; cbn [step messages]; try reflexivity.
  - unfold submit.
    destruct (negb (truthy (trim (input st))) || loading st); [reflexivity|].
    cbn [messages]; rewrite countRole_snoc; cbn; lia.
  - unfold settle; destruct (inFlight st); [reflexivity|].
    cbn [messages]; rewrite countRole_snoc.
    unfold countRole at 2; cbn [filter]; rewrite role_reply; cbn; lia.
Qed.

(** X14. In every reachable state each user message has exactly one
    reply, except the one whose call is still in flight, and the greeting
    stays the only system message. *)
Theorem every_prompt_answered_once (evs : list Event) :
  let st := run toString (@initialApp num _) evs in
  countRole user (messages st)
  = (countRole assistant (messages st) + length (inFlight st))%nat /\
  countRole system (messages st) = 1%nat.
Proof.
  cbv zeta; split.
  - apply (run_wellFormed initialApp evs initialApp_wellFormed).
  - induction evs as [|ev evs IH] using rev_ind; [reflexivity|].
    rewrite run_snoc, step_countRole_system; exact IH.
Qed.


Lemma step_messages_grow (st : @AppState num) (ev : Event) :
  exists more, messages (step toString st ev) = messages st ++ more.
Proof.
  destruct ev as [e| |text| |res]; cbn [step messages].
  1-3: exists nil; rewrite app_nil_r; reflexivity.
  - unfold submit.
    destruct (negb (truthy (trim (input st))) || loading st).
    + exists nil; rewrite app_nil_r; reflexivity.
    + eexists; reflexivity.
  - unfold settle; destruct (inFlight st).
    + exists nil; rewrite app_nil_r; reflexivity.
    + eexists; reflexivity.
Qed.

(** X16. The conversation is append-only: from any state and after any
    events, the messages are the earlier messages followed by new ones. *)
Theorem messages_append_only (st : @AppState num) (evs : list Event) :
  exists more, messages (run toString st evs) = messages st ++ more.
Proof.
  induction evs as [|ev evs IH] using rev_ind.
  - exists nil; rewrite app_nil_r; reflexivity.
  - rewrite run_snoc.
    destruct IH as (more & Em).
    destruct (step_messages_grow (run toString st evs) ev) as (more' & Em').
    exists (more ++ more'); rewrite Em', Em, app_assoc; reflexivity.
Qed.

(** X17. The stored joints are replaced exactly when the key is
    configured, the service returned a non-empty text and the text parsed to
    a value; then they become that value. In every other case they stay as
    they are and the reply is flagged as an error. *)
Theorem joints_replaced_only_on_pose
  (ai : bool) (api : ApiOutcome) (JSON_parse : JSString -> ParseOutcome)
  (st : @AppState num) :
  inFlight st <> nil ->
  let res := generateRobotPose ai api JSON_parse in
  let st' := settle toString res st in
  (forall t, res = Resolved (Some t) <->
     ai = true /\
     exists text, api = ApiReturned (Some text) /\ truthy text = true /\
                  JSON_parse text = Parsed (Some t)) /\
  (forall t, res = Resolved (Some t) ->
     joints st' = t /\
     exists m, messages st' = messages st ++ m :: nil /\ isError m = None) /\
  ((forall t, res <> Resolved (Some t)) ->
     joints st' = joints st /\
     exists m, messages st' = messages st ++ m :: nil /\
               isError m = Some true).
Proof.
  intros Hfl; cbv zeta; split; [|split].
  - intros t; unfold generateRobotPose.
    destruct ai; cbn [negb].
    + destruct api as [|[text|]].
      * split; [discriminate | intros (_ & text & E & _); discriminate].
      * destruct (truthy text) eqn:Et; cbn [negb].
        -- destruct (JSON_parse text) as [|v] eqn:Ep.
           ++ split; [discriminate|].
              intros (_ & text' & E & _ & Ep'); injection E as <-; congruence.
           ++ split.
              ** intros E; injection E as ->.
                 split; [reflexivity|]; exists text; auto.
              ** intros (_ & text' & E & _ & Ep'); injection E as <-; congruence.
        -- split; [discriminate|].
           intros (_ & text' & E & Et' & _); injection E as <-; congruence.
      * split; [discriminate | intros (_ & text & E & _); discriminate].
    + split; [discriminate | intros (E & _); discriminate].
  - intros t ->; unfold settle.
    destruct (inFlight st); [contradiction Hfl; reflexivity|].
    cbn [joints messages handleSubmit reply]; split; [reflexivity|].
    eexists; split; reflexivity.
  - intros Hno; unfold settle.
    destruct (inFlight st); [contradiction Hfl; reflexivity|].
    cbn [joints messages].
    destruct (generateRobotPose ai api JSON_parse) as [[t|]|].
    + contradiction (Hno t); reflexivity.
    + split; [reflexivity|]; eexists; split; reflexivity.
    + split; [reflexivity|]; eexists; split; reflexivity.
Qed.

End AppFacts.

(** X17 at the state after typing a prompt and submitting it. *)
Lemma joints_replaced_only_on_pose_example :
  let st := run (fun _ : R => nil) initialApp
                (OnInput (ofAscii "up") :: OnSubmit :: nil) in
  let res := generateRobotPose false ApiThrew (fun _ => ParseThrew) in
  let st' := settle (fun _ : R => nil) res st in
  (forall t, res = Resolved (Some t) <->
     false = true /\
     exists text, ApiThrew = ApiReturned (Some text) /\ truthy text = true /\
                  ParseThrew = Parsed (Some t)) /\
  (forall t, res = Resolved (Some t) ->
     joints st' = t /\
     exists m, messages st' = messages st ++ m :: nil /\ isError m = None) /\
  ((forall t, res <> Resolved (Some t)) ->
     joints st' = joints st /\
     exists m, messages st' = messages st ++ m :: nil /\
               isError m = Some true).
Proof.
  apply (@joints_replaced_only_on_pose R (fun _ => nil)
           false ApiThrew (fun _ => ParseThrew)).
  cbn; discriminate.
Defined.

(** ** The controls panel and the application, over the reals *)

Section PanelReals.

Local Open Scope R_scope.

Lemma controls_preserve_inLimits (e : ControlsEvent) (j : JointState R) :
  inLimits j -> inLimits (controls e j).
Proof.
  intros Hj; destruct e as [axis v|axis|axis| | | |]; cbn [controls].
  - apply handleChange_preserves_inLimits, Hj.
  - apply handleChange_preserves_inLimits, Hj.
  - apply handleChange_preserves_inLimits, Hj.
  - apply handleReset_inLimits.
  - intros axis; destruct axis; unfold inLimit; cbn; lra.
  - intros axis; destruct axis; unfold inLimit; cbn; lra.
  - intros axis; destruct axis; unfold inLimit; cbn; lra.
Qed.

(** X19. The joint limits are an invariant of the application as long as
    the service keeps them: if every pose the service resolves to is within
    the limits, the stored joints are within the limits after any sequence
    of events. *)
Theorem joints_within_limits_invariant
  (toString : R -> JSString) (evs : list Event) :
  (forall t, In (OnSettled (Resolved (Some t))) evs -> inLimits t) ->
  inLimits (joints (run toString initialApp evs)).
Proof.
  induction evs as [|ev evs IH] using rev_ind; intros Hsvc.
  - apply INITIAL_JOINTS_inLimits.
  - rewrite run_snoc.
    assert (Hprev : inLimits (joints (run toString initialApp evs))).
    { apply IH; intros t Ht; apply Hsvc, in_or_app; left; exact Ht. }
    destruct ev as [e| |text| |res]; cbn [step joints]; try exact Hprev.
    + apply controls_preserve_inLimits, Hprev.
    + unfold submit.
      destruct (negb (truthy (trim (input _))) || loading _); exact Hprev.
    + unfold settle.
      destruct (inFlight (run toString initialApp evs)); [exact Hprev|].
      cbn [joints].
      destruct res as [[t|]|]; cbn [handleSubmit]; try exact Hprev.
      apply Hsvc, in_or_app; right; left; reflexivity.
Qed.

Lemma joints_within_limits_invariant_example :
  inLimits
    (joints
       (run (fun _ : R => nil) initialApp
          (OnControls (Change J2 500) :: OnInput (ofAscii "up") :: OnSubmit
           :: OnSettled (Resolved (Some POSE_2)) :: nil))).
Proof.
  apply (joints_within_limits_invariant (fun _ => nil)).
  intros t [E | [E | [E | [E | []]]]]; try discriminate.
  injection E as <-.
  intros axis; destruct axis; unfold inLimit; cbn; lra.
Defined.

End PanelReals.

(** ** The controls panel at doubles *)

Section PanelDoubles.

Import Double.
Local Open Scope float_scope.

Lemma SFcompare_antisym (a b : spec_float) :
  SFcompare b a = option_map CompOpp (SFcompare a b).
Proof.
  destruct a as [s|s| |s m e]; destruct b as [t|t| |t n f]; cbn;
    try reflexivity; try (destruct s; reflexivity);
    try (destruct t; reflexivity); try (destruct s, t; reflexivity).
  rewrite (Z.compare_antisym e f).
  pose proof (Pos.compare_cont_antisym m n Eq) as Ha; cbn [CompOpp] in Ha.
  destruct s, t; try reflexivity.
  - destruct (e ?= f)%Z; cbn; try reflexivity.
    rewrite <- Ha; reflexivity.
  - destruct (e ?= f)%Z; cbn; try reflexivity.
    rewrite <- Ha; reflexivity.
Qed.

Lemma SFcompare_not_nan (a b : float) :
  is_nan a = false -> is_nan b = false ->
  exists c, SFcompare (Prim2SF a) (Prim2SF b) = Some c.
Proof.
  rewrite !is_nan_Prim2SF.
  destruct (Prim2SF a); destruct (Prim2SF b); cbn; intros; try discriminate;
    eexists; reflexivity.
Qed.

Lemma SFcompare_refl (a : float) :
  is_nan a = false -> SFcompare (Prim2SF a) (Prim2SF a) = Some Eq.
Proof.
  rewrite is_nan_Prim2SF.
  destruct (Prim2SF a) as [s|s| |s m e]; cbn [SFnan]; intros Hn;
    try discriminate.
  - reflexivity.
  - destruct s; reflexivity.
  - apply SFcompare_finite_refl.
Qed.

Lemma ltb_compare (a b : float) :
  (a <? b) = match SFcompare (Prim2SF a) (Prim2SF b) with
             | Some Lt => true | _ => false end.
Proof. rewrite FloatAxioms.ltb_spec; reflexivity. Qed.

Lemma leb_compare (a b : float) :
  (a <=? b) = match SFcompare (Prim2SF a) (Prim2SF b) with
              | Some Lt | Some Eq => true | _ => false end.
Proof. rewrite FloatAxioms.leb_spec; unfold SFleb; destruct (SFcompare _ _) as [[| |]|]; reflexivity. Qed.

(** [Math.min(Math.max(v, lo), hi)] lies between [lo] and [hi] for every
    [v] that is not NaN. *)
Lemma min64_max64_between (v lo hi : float) :
  is_nan v = false -> is_nan lo = false -> is_nan hi = false ->
  (lo <=? hi) = true ->
  (lo <=? min64 (max64 v lo) hi) = true /\
  (min64 (max64 v lo) hi <=? hi) = true.
Proof.
  intros Hv Hlo Hhi Hle.
  destruct (SFcompare_not_nan v lo Hv Hlo) as (c1 & E1).
  destruct (SFcompare_not_nan v hi Hv Hhi) as (c2 & E2).
  destruct (SFcompare_not_nan lo hi Hlo Hhi) as (c3 & E3).
  pose proof (SFcompare_refl lo Hlo) as Rlo.
  pose proof (SFcompare_refl hi Hhi) as Rhi.
  pose proof (SFcompare_refl v Hv) as Rv.
  pose proof (SFcompare_antisym (Prim2SF v) (Prim2SF lo)) as A1.
  pose proof (SFcompare_antisym (Prim2SF v) (Prim2SF hi)) as A2.
  pose proof (SFcompare_antisym (Prim2SF lo) (Prim2SF hi)) as A3.
  rewrite E1 in A1; rewrite E2 in A2; rewrite E3 in A3; cbn in A1, A2, A3.
  rewrite leb_compare, E3 in Hle.
  unfold max64; rewrite Hv, Hlo; cbn [orb].
  rewrite (ltb_compare v lo), (ltb_compare lo v), E1, A1.
  destruct c1; cbn [CompOpp].
  - (* v = lo *)
    destruct (isNegZero v).
    + unfold min64; rewrite Hlo, Hhi; cbn [orb].
      rewrite (ltb_compare lo hi), (ltb_compare hi lo), E3, A3.
      destruct c3; cbn [CompOpp]; try discriminate.
      * destruct (isNegZero lo); rewrite !leb_compare, ?Rlo, ?Rhi, ?E3, ?A3;
          cbn; split; reflexivity.
      * rewrite !leb_compare, ?Rlo, ?E3; split; reflexivity.
    + unfold min64; rewrite Hv, Hhi; cbn [orb].
      rewrite (ltb_compare v hi), (ltb_compare hi v), E2, A2.
      destruct c2; cbn [CompOpp].
      * destruct (isNegZero v); rewrite !leb_compare, ?A1, ?E2, ?Rhi, ?E3;
          cbn; try (split; reflexivity).
        destruct c3; try discriminate; split; reflexivity.
      * rewrite !leb_compare, ?A1, ?E2; split; reflexivity.
      * rewrite !leb_compare, ?Rhi, ?E3.
        destruct c3; try discriminate; split; reflexivity.
  - (* v < lo *)
    unfold min64; rewrite Hlo, Hhi; cbn [orb].
    rewrite (ltb_compare lo hi), (ltb_compare hi lo), E3, A3.
    destruct c3; cbn [CompOpp]; try discriminate.
    + destruct (isNegZero lo); rewrite !leb_compare, ?Rlo, ?Rhi, ?E3, ?A3;
        cbn; split; reflexivity.
    + rewrite !leb_compare, ?Rlo, ?E3; split; reflexivity.
  - (* lo < v *)
    unfold min64; rewrite Hv, Hhi; cbn [orb].
    rewrite (ltb_compare v hi), (ltb_compare hi v), E2, A2.
    destruct c2; cbn [CompOpp].
    + destruct (isNegZero v); rewrite !leb_compare, ?A1, ?E2, ?Rhi, ?E3;
        cbn; try (split; reflexivity).
      destruct c3; try discriminate; split; reflexivity.
    + rewrite !leb_compare, ?A1, ?E2; split; reflexivity.
    + rewrite !leb_compare, ?Rhi, ?E3.
      destruct c3; try discriminate; split; reflexivity.
Qed.

(** A double between two finite doubles is finite. *)
Lemma between_finite (lo r hi : float) :
  is_finite lo = true -> is_finite hi = true ->
  (lo <=? r) = true -> (r <=? hi) = true -> is_finite r = true.
Proof.
  rewrite !is_finite_Prim2SF, !leb_compare.
  destruct (Prim2SF r) as [s|s| |s m e]; cbn [SFfinite]; try reflexivity.
  - destruct (Prim2SF lo) as [t|t| |t n f]; cbn [SFfinite]; try discriminate;
      destruct (Prim2SF hi) as [u|u| |u k g]; cbn [SFfinite]; try discriminate;
      cbn; destruct s; discriminate.
  - destruct (Prim2SF lo); cbn; discriminate.
Qed.


Lemma limits64_ordered (M : MathImpl) (axis : Axis) :
  is_nan (min (@JOINT_LIMITS float (DoubleNumber M) axis)) = false /\
  is_nan (max (@JOINT_LIMITS float (DoubleNumber M) axis)) = false /\
  is_finite (min (@JOINT_LIMITS float (DoubleNumber M) axis)) = true /\
  is_finite (max (@JOINT_LIMITS float (DoubleNumber M) axis)) = true /\
  (min (@JOINT_LIMITS float (DoubleNumber M) axis)
   <=? max (@JOINT_LIMITS float (DoubleNumber M) axis)) = true.
Proof. destruct axis; repeat split; vm_compute; reflexivity. Qed.

Lemma handleChange64_value_between
  (M : MathImpl) (axis : Axis) (value : float) (prev : JointState float) :
  is_nan value = false ->
  (min (@JOINT_LIMITS float (DoubleNumber M) axis)
   <=? getAxis axis (handleChange64 M axis value prev)) = true /\
  (getAxis axis (handleChange64 M axis value prev)
   <=? max (@JOINT_LIMITS float (DoubleNumber M) axis)) = true.
Proof.
  intros Hv.
  unfold handleChange64, handleChange; cbn [isNaN DoubleNumber].
  rewrite Hv, getAxis_setAxis_same.
  unfold clamp; cbn [Math_min Math_max DoubleNumber].
  destruct (limits64_ordered M axis) as (Nlo & Nhi & _ & _ & Hle).
  apply (min64_max64_between value _ _ Hv Nlo Nhi Hle).
Qed.

(** X20. At doubles, every value that is not NaN, the infinities included,
    is stored by [handleChange] as a finite double within the limits of its
    axis. *)
Theorem handleChange64_stores_within_limits
  (M : MathImpl) (axis : Axis) (value : float) (prev : JointState float) :
  is_nan value = false ->
  let stored := getAxis axis (handleChange64 M axis value prev) in
  (min (@JOINT_LIMITS float (DoubleNumber M) axis) <=? stored) = true /\
  (stored <=? max (@JOINT_LIMITS float (DoubleNumber M) axis)) = true /\
  is_finite stored = true.
Proof.
  intros Hv; cbv zeta.
  destruct (handleChange64_value_between M axis value prev Hv) as [Hl Hh].
  destruct (limits64_ordered M axis) as (_ & _ & Flo & Fhi & _).
  repeat split; try assumption.
  apply (between_finite _ _ _ Flo Fhi Hl Hh).
Qed.

Lemma handleChange64_stores_within_limits_example :
  let stored :=
    getAxis J1 (handleChange64 minimalMath J1 infinity
                  (@INITIAL_JOINTS float (DoubleNumber minimalMath))) in
  (min (@JOINT_LIMITS float (DoubleNumber minimalMath) J1) <=? stored) = true /\
  (stored <=? max (@JOINT_LIMITS float (DoubleNumber minimalMath) J1)) = true /\
  is_finite stored = true.
Proof.
  apply (handleChange64_stores_within_limits minimalMath J1 infinity).
  reflexivity.
Defined.

Lemma handleChange64_preserves_inLimits64
  (M : MathImpl) (axis : Axis) (value : float) (prev : JointState float) :
  inLimits64 M prev -> inLimits64 M (handleChange64 M axis value prev).
Proof.
  intros Hp other.
  destruct (is_nan value) eqn:Hv.
  - unfold handleChange64, handleChange; cbn [isNaN DoubleNumber].
    rewrite Hv; apply Hp.
  - destruct (Axis_eq_dec axis other) as [<-|Hne].
    + destruct (handleChange64_value_between M axis value prev Hv) as [Hl Hh].
      split; assumption.
    + unfold handleChange64.
      rewrite (handleChange_other_axis axis other value prev Hne); apply Hp.
Qed.

Lemma controls64_preserve_inLimits64
  (M : MathImpl) (e : @ControlsEvent float) (j : JointState float) :
  inLimits64 M j -> inLimits64 M (@controls float (DoubleNumber M) e j).
Proof.
  intros Hj; destruct e as [axis v|axis|axis| | | |]; cbn [controls].
  - apply (handleChange64_preserves_inLimits64 M axis v j Hj).
  - apply (handleChange64_preserves_inLimits64 M axis _ j Hj).
  - apply (handleChange64_preserves_inLimits64 M axis _ j Hj).
  - intros axis; destruct axis; split; vm_compute; reflexivity.
  - intros axis; destruct axis; split; vm_compute; reflexivity.
  - intros axis; destruct axis; split; vm_compute; reflexivity.
  - intros axis; destruct axis; split; vm_compute; reflexivity.
Qed.

Lemma inLimits64_finite (M : MathImpl) (j : JointState float) :
  inLimits64 M j -> finiteJoints j.
Proof.
  intros Hj.
  assert (Hax : forall axis, is_finite (getAxis axis j) = true).
  { intros axis; destruct (Hj axis) as [Hl Hh].
    destruct (limits64_ordered M axis) as (_ & _ & Flo & Fhi & _).
    apply (between_finite _ _ _ Flo Fhi Hl Hh). }
  repeat split.
  - apply (Hax J1).
  - apply (Hax J2).
  - apply (Hax J3).
  - apply (Hax J4).
  - apply (Hax J5).
  - apply (Hax J6).
Qed.

(** X21. At doubles the joint limits are an invariant of the application
    as long as the service keeps them: whatever is typed into the controls,
    NaN and the infinities included, the stored joints stay finite and
    within the limits. *)
Theorem joints_within_limits64_invariant
  (M : MathImpl) (toString : float -> JSString) (evs : list Event) :
  (forall t, In (OnSettled (Resolved (Some t))) evs -> inLimits64 M t) ->
  inLimits64 M
    (joints (@run float (DoubleNumber M) toString
               (@initialApp float (DoubleNumber M)) evs)) /\
  finiteJoints
    (joints (@run float (DoubleNumber M) toString
               (@initialApp float (DoubleNumber M)) evs)).
Proof.
  intros Hsvc.
  assert (Hinv : inLimits64 M
            (joints (@run float (DoubleNumber M) toString
               (@initialApp float (DoubleNumber M)) evs))).
  { induction evs as [|ev evs IH] using rev_ind.
    - intros axis; destruct axis; split; vm_compute; reflexivity.
    - rewrite run_snoc.
      assert (Hprev : inLimits64 M
                (joints (@run float (DoubleNumber M) toString
               (@initialApp float (DoubleNumber M)) evs))).
      { apply IH; intros t Ht; apply Hsvc, in_or_app; left; exact Ht. }
      destruct ev as [e| |text| |res]; cbn [step joints]; try exact Hprev.
      + apply controls64_preserve_inLimits64, Hprev.
      + unfold submit.
        destruct (negb (truthy (trim (input _))) || loading _); exact Hprev.
      + unfold settle.
        destruct (inFlight (run toString _ evs)); [exact Hprev|].
        cbn [joints].
        destruct res as [[t|]|]; cbn [handleSubmit]; try exact Hprev.
        apply Hsvc, in_or_app; right; left; reflexivity. }
  split; [exact Hinv | apply (inLimits64_finite M), Hinv].
Qed.

Lemma joints_within_limits64_invariant_example :
  inLimits64 minimalMath
    (joints (@run float (DoubleNumber minimalMath) (fun _ => nil)
               (@initialApp float (DoubleNumber minimalMath))
               (OnControls (Change J2 nan) :: OnControls (Change J3 infinity)
                :: OnInput (ofAscii "up") :: OnSubmit
                :: OnSettled (Resolved (Some (@POSE_2 float
                                                (DoubleNumber minimalMath))))
                :: nil))) /\
  finiteJoints
    (joints (@run float (DoubleNumber minimalMath) (fun _ => nil)
               (@initialApp float (DoubleNumber minimalMath))
               (OnControls (Change J2 nan) :: OnControls (Change J3 infinity)
                :: OnInput (ofAscii "up") :: OnSubmit
                :: OnSettled (Resolved (Some (@POSE_2 float
                                                (DoubleNumber minimalMath))))
                :: nil))).
Proof.
  apply (joints_within_limits64_invariant minimalMath (fun _ => nil)).
  intros t [E | [E | [E | [E | [E | []]]]]]; try discriminate.
  injection E as <-.
  intros axis; destruct axis; split; vm_compute; reflexivity.
Defined.

(** X18. At doubles the step buttons stop at the limits: stepping up an
    axis that is at its maximum, or down an axis that is at its minimum,
    leaves the joint state as it is. *)
Theorem step_buttons_stop_at_limits64
  (M : MathImpl) (axis : Axis) (j : JointState float) :
  (getAxis axis j = max (@JOINT_LIMITS float (DoubleNumber M) axis) ->
   @stepUp float (DoubleNumber M) axis j = j) /\
  (getAxis axis j = min (@JOINT_LIMITS float (DoubleNumber M) axis) ->
   @stepDown float (DoubleNumber M) axis j = j).
Proof.
  destruct j as [a1 a2 a3 a4 a5 a6].
  split; intros Hv; unfold stepUp, stepDown, handleChange, clamp;
    destruct axis; cbn [getAxis j1 j2 j3 j4 j5 j6] in *; subst;
    vm_compute; reflexivity.
Qed.

End PanelDoubles.

(** ** Rounding to a double keeps bounded magnitudes bounded *)

Section RoundingBounds.

Import Double.
Local Open Scope Z_scope.

(** *** Binary digits *)

Lemma digits2_pos_size (p : positive) : digits2_pos p = Pos.size p.
Proof. induction p; cbn; congruence. Qed.

Lemma digits2_pos_log2 (p : positive) :
  Zpos (digits2_pos p) = Z.log2 (Zpos p) + 1.
Proof.
  rewrite digits2_pos_size.
  destruct p; cbn; rewrite ?Pos.add_1_r; reflexivity || lia.
Qed.

Lemma Zdigits2_log2 (m : Z) : 0 < m -> Zdigits2 m = Z.log2 m + 1.
Proof.
  destruct m as [|p|p]; try lia; intros _; apply digits2_pos_log2.
Qed.

Lemma Zdigits2_nonneg (m : Z) : 0 <= Zdigits2 m.
Proof. destruct m; cbn; lia. Qed.

Lemma Zdigits2_le (a b : Z) : 0 < a -> a <= b -> Zdigits2 a <= Zdigits2 b.
Proof.
  intros Ha Hab; rewrite !Zdigits2_log2 by lia.
  pose proof (Z.log2_le_mono a b Hab); lia.
Qed.

Lemma Zdigits2_succ (a : Z) : 0 <= a -> Zdigits2 (a + 1) <= Zdigits2 a + 1.
Proof.
  intros Ha; destruct (Z.eq_dec a 0) as [->|Hn]; [cbn; lia|].
  rewrite !Zdigits2_log2 by lia.
  pose proof (Z.log2_succ_le a); unfold Z.succ in *; lia.
Qed.

Lemma Zdigits2_double (a : Z) : 0 < a -> Zdigits2 (2 * a) = Zdigits2 a + 1.
Proof.
  intros Ha; rewrite !Zdigits2_log2 by lia.
  rewrite Z.log2_double by lia; lia.
Qed.

Lemma Zdigits2_mul_pow2 (a k : Z) :
  0 < a -> 0 <= k -> Zdigits2 (a * 2 ^ k) = Zdigits2 a + k.
Proof.
  intros Ha Hk.
  assert (0 < 2 ^ k) by (apply Z.pow_pos_nonneg; lia).
  rewrite !Zdigits2_log2 by nia.
  rewrite Z.log2_mul_pow2 by lia; lia.
Qed.

Lemma Zdigits2_mul_le (a b : Z) :
  0 < a -> 0 < b -> Zdigits2 (a * b) <= Zdigits2 a + Zdigits2 b.
Proof.
  intros Ha Hb; rewrite !Zdigits2_log2 by nia.
  pose proof (Z.log2_mul_above a b); lia.
Qed.

Lemma Zdigits2_mul_ge (a b : Z) :
  0 < a -> 0 < b -> Zdigits2 a + Zdigits2 b - 1 <= Zdigits2 (a * b).
Proof.
  intros Ha Hb; rewrite !Zdigits2_log2 by nia.
  pose proof (Z.log2_mul_below a b Ha Hb); lia.
Qed.

Lemma Zdigits2_shiftr (m n : Z) :
  0 <= m -> 0 <= n -> 0 < Z.shiftr m n ->
  Zdigits2 (Z.shiftr m n) <= Zdigits2 m - n.
Proof.
  intros Hm Hn Hs.
  assert (0 < m).
  { destruct (Z.eq_dec m 0) as [->|]; [rewrite Z.shiftr_0_l in Hs|]; lia. }
  rewrite !Zdigits2_log2 by lia.
  rewrite Z.log2_shiftr by lia.
  destruct (Z_lt_le_dec (Z.log2 m) n) as [Hlt|Hge]; [|lia].
  rewrite Z.shiftr_eq_0 in Hs by lia; lia.
Qed.

(** *** Right shifts of the mantissa *)

Lemma shr_1_m (mrs : shr_record) :
  0 <= shr_m mrs -> shr_m (shr_1 mrs) = Z.div2 (shr_m mrs).
Proof.
  destruct mrs as [m r s]; cbn [shr_m]; intros Hm.
  destruct m as [|[p|p|]|p]; try reflexivity; lia.
Qed.

Lemma iter_pos_shr_1_m (p : positive) (mrs : shr_record) :
  0 <= shr_m mrs ->
  shr_m (SpecFloat.iter_pos shr_1 p mrs) = Z.shiftr (shr_m mrs) (Zpos p).
Proof.
  revert mrs; induction p as [p IH|p IH|]; intros mrs Hm; cbn [SpecFloat.iter_pos].
  - assert (H1 : 0 <= shr_m (shr_1 mrs))
      by (rewrite shr_1_m by lia; apply Z.div2_nonneg; lia).
    assert (H2 : 0 <= shr_m (SpecFloat.iter_pos shr_1 p (shr_1 mrs)))
      by (rewrite IH by lia; apply Z.shiftr_nonneg; lia).
    rewrite IH, IH, shr_1_m by lia.
    rewrite Z.div2_spec, !Z.shiftr_shiftr by lia.
    f_equal; lia.
  - assert (H2 : 0 <= shr_m (SpecFloat.iter_pos shr_1 p mrs))
      by (rewrite IH by lia; apply Z.shiftr_nonneg; lia).
    rewrite IH, IH by lia.
    rewrite !Z.shiftr_shiftr by lia.
    f_equal; lia.
  - rewrite shr_1_m by lia; apply Z.div2_spec.
Qed.

Lemma shr_spec (mrs : shr_record) (e n : Z) :
  0 <= shr_m mrs ->
  shr_m (fst (shr mrs e n)) = Z.shiftr (shr_m mrs) (Z.max 0 n) /\
  snd (shr mrs e n) = e + Z.max 0 n.
Proof.
  intros Hm; destruct n as [|p|p]; cbn [shr fst snd].
  - rewrite Z.shiftr_0_r; split; [reflexivity | cbn; lia].
  - rewrite iter_pos_shr_1_m by lia.
    replace (Z.max 0 (Zpos p)) with (Zpos p) by lia; split; reflexivity.
  - replace (Z.max 0 (Zneg p)) with 0 by lia.
    rewrite Z.shiftr_0_r; split; [reflexivity | lia].
Qed.

Lemma shr_m_of_loc (m : Z) (l : location) : shr_m (shr_record_of_loc m l) = m.
Proof. destruct l as [|[| |]]; reflexivity. Qed.

Lemma round_nearest_even_range (m : Z) (l : location) :
  m <= round_nearest_even m l <= m + 1.
Proof.
  destruct l as [|[| |]]; cbn; try lia.
  destruct (Z.even m); lia.
Qed.

(** *** Rounding *)

Lemma prec_emax_values : prec = 53 /\ emax = 1024.
Proof. split; reflexivity. Qed.

Lemma fexp_eq (e : Z) : fexp prec emax e = Z.max (e - 53) (-1074).
Proof. reflexivity. Qed.

(** The rounding step shared by the four operations. A mantissa [mx] at
    exponent [ex] that carries at least the digits the format keeps
    ([ex <= fexp (digits + ex)]) rounds to a double below [2 ^ K] when
    [mx * 2 ^ ex] is below [2 ^ (K - 1)]: rounding up adds at most one
    digit, and nothing rounds to an infinity while [K <= 1024]. *)
Lemma binary_round_aux_bounded (sx : bool) (mx ex : Z) (lx : location) (K : Z) :
  0 <= mx ->
  ex <= fexp prec emax (Zdigits2 mx + ex) ->
  Zdigits2 mx + ex + 1 <= K ->
  -1073 <= K -> K <= 1024 ->
  SFbounded K (binary_round_aux prec emax sx mx ex lx).
Proof.
  intros Hmx Hex HK Hlo Hhi.
  unfold binary_round_aux, shr_fexp.
  set (d := Zdigits2 mx + ex) in *.
  set (n := fexp prec emax d - ex).
  destruct (shr_spec (shr_record_of_loc mx lx) ex n) as [Em1 Ee1];
    [rewrite shr_m_of_loc; exact Hmx|].
  destruct (shr (shr_record_of_loc mx lx) ex n) as [mrs1 e1].
  cbn [fst snd] in Em1, Ee1.
  rewrite shr_m_of_loc in Em1.
  assert (Hn : Z.max 0 n = n) by (unfold n; lia).
  rewrite Hn in Em1, Ee1.
  assert (He1 : e1 = fexp prec emax d) by (unfold n in Ee1; lia).
  set (m1 := shr_m mrs1) in *.
  assert (Hm1 : 0 <= m1) by (rewrite Em1; apply Z.shiftr_nonneg; lia).
  pose proof (round_nearest_even_range m1 (loc_of_shr_record mrs1)) as Hr.
  set (mr := round_nearest_even m1 (loc_of_shr_record mrs1)) in *.
  (* top bit after rounding *)
  assert (HT : 0 < mr -> Zdigits2 mr + e1 <= K).
  { intros Hpos.
    destruct (Z.eq_dec m1 0) as [E0|Hne].
    - assert (mr = 1) by lia.
      replace mr with 1 by lia; cbn [Zdigits2 digits2_pos].
      rewrite He1, fexp_eq; unfold d in *; lia.
    - assert (Hs : Zdigits2 m1 <= Zdigits2 mx - n).
      { rewrite Em1; apply Zdigits2_shiftr;
          [lia | unfold n; lia | rewrite <- Em1; lia]. }
      assert (Zdigits2 mr <= Zdigits2 m1 + 1).
      { destruct (Z.eq_dec mr m1) as [->|]; [lia|].
        replace mr with (m1 + 1) by lia; apply Zdigits2_succ; lia. }
      unfold n in *; lia. }
  set (n2 := fexp prec emax (Zdigits2 mr + e1) - e1).
  destruct (shr_spec (shr_record_of_loc mr loc_Exact) e1 n2) as [Em2 Ee2];
    [rewrite shr_m_of_loc; lia|].
  destruct (shr (shr_record_of_loc mr loc_Exact) e1 n2) as [mrs2 e2].
  cbn [fst snd] in Em2, Ee2.
  rewrite shr_m_of_loc in Em2.
  assert (Hm2 : 0 <= shr_m mrs2) by (rewrite Em2; apply Z.shiftr_nonneg; lia).
  destruct (shr_m mrs2) as [|m2|m2] eqn:Eq2; [exact I | | lia].
  assert (Hmr : 0 < mr).
  { destruct (Z.eq_dec mr 0) as [E0|]; [|lia].
    rewrite E0, Z.shiftr_0_l in Em2; lia. }
  specialize (HT Hmr).
  assert (He2 : e2 <= 971).
  { rewrite Ee2; unfold n2; rewrite He1, !fexp_eq; unfold d in *.
    rewrite He1, fexp_eq in HT; lia. }
  replace (e2 <=? emax - prec) with true
    by (symmetry; apply Z.leb_le; cbn; lia).
  cbn [SFbounded].
  change (Zpos (digits2_pos m2)) with (Zdigits2 (Zpos m2)).
  rewrite Em2.
  assert (Zdigits2 (Z.shiftr mr (Z.max 0 n2)) <= Zdigits2 mr - Z.max 0 n2).
  { apply Zdigits2_shiftr; [lia | lia | rewrite <- Em2; lia]. }
  lia.
Qed.

(** *** The four operations *)

Lemma iter_xO_pow2 (m d : positive) :
  Zpos (Pos.iter xO m d) = Zpos m * 2 ^ Zpos d.
Proof.
  induction d as [|d IH] using Pos.peano_ind.
  - cbn; lia.
  - rewrite Pos.iter_succ, Pos2Z.inj_succ, Z.pow_succ_r by lia.
    rewrite Pos2Z.inj_xO, IH; lia.
Qed.

(** [shl_align] keeps the value and lowers the exponent to the smaller of the two. *)
Lemma shl_align_spec (m : positive) (e e0 : Z) :
  let r := shl_align m e e0 in
  snd r = Z.min e e0 /\
  Zpos (fst r) = Zpos m * 2 ^ (e - snd r) /\
  Zdigits2 (Zpos (fst r)) + snd r = Zdigits2 (Zpos m) + e.
Proof.
  cbv zeta; unfold shl_align.
  destruct (e0 - e) as [|d|d] eqn:Ed; cbn [fst snd].
  - split; [lia|]; rewrite Z.sub_diag; cbn; split; lia.
  - split; [lia|]; rewrite Z.sub_diag; cbn; split; lia.
  - assert (Hd : e - e0 = Zpos d) by lia.
    split; [lia|]; rewrite Hd, iter_xO_pow2; split; [reflexivity|].
    rewrite <- iter_xO_pow2.
    change (Zdigits2 (Zpos (Pos.iter xO m d)))
      with (Zdigits2 (Zpos (Pos.iter xO m d))).
    rewrite iter_xO_pow2, Zdigits2_mul_pow2 by lia; lia.
Qed.

Lemma binary_round_bounded (sx : bool) (m : positive) (e K : Z) :
  Zdigits2 (Zpos m) + e + 1 <= K -> -1073 <= K -> K <= 1024 ->
  SFbounded K (binary_round prec emax sx m e).
Proof.
  intros HK Hlo Hhi; unfold binary_round.
  pose proof (shl_align_spec m e
                (fexp prec emax (Zpos (digits2_pos m) + e))) as Hs.
  cbv zeta in Hs.
  destruct (shl_align m e (fexp prec emax (Zpos (digits2_pos m) + e)))
    as [mz ez].
  cbn [fst snd] in Hs; destruct Hs as (Hez & _ & Hd).
  change (Zpos (digits2_pos m)) with (Zdigits2 (Zpos m)) in Hez.
  apply binary_round_aux_bounded; try lia.
  rewrite Hd; lia.
Qed.

Lemma binary_normalize_bounded (m e K : Z) (szero : bool) :
  Zdigits2 m + e + 1 <= K -> -1073 <= K -> K <= 1024 ->
  SFbounded K (binary_normalize prec emax m e szero).
Proof.
  intros HK Hlo Hhi; destruct m as [|p|p]; cbn [binary_normalize].
  - exact I.
  - apply binary_round_bounded; assumption.
  - apply binary_round_bounded; assumption.
Qed.

Lemma SFbounded_mono (k l : Z) (s : spec_float) :
  k <= l -> SFbounded k s -> SFbounded l s.
Proof. destruct s; cbn; intros; try assumption; lia. Qed.

Lemma SFbounded_valid_canonical (s : bool) (m : positive) (e : Z) :
  valid_binary (S754_finite s m e) = true ->
  Z.max (Zdigits2 (Zpos m) + e - 53) (-1074) = e.
Proof.
  cbn [valid_binary]; unfold bounded, canonical_mantissa.
  intros H; apply andb_prop in H; destruct H as [H _].
  apply Z.eqb_eq in H; exact H.
Qed.

(** Multiplication *)
Lemma SFmul_bounded (a b : spec_float) (k l K : Z) :
  valid_binary a = true -> valid_binary b = true ->
  SFbounded k a -> SFbounded l b ->
  k + l + 1 <= K -> -1073 <= K -> K <= 1024 ->
  SFbounded K (SFmul prec emax a b).
Proof.
  intros Va Vb Ha Hb HK Hlo Hhi.
  destruct a as [sa|sa| |sa ma ea]; destruct b as [sb|sb| |sb mb eb];
    cbn [SFbounded] in Ha, Hb; try contradiction; try exact I.
  cbn [SFmul].
  apply SFbounded_valid_canonical in Va, Vb.
  change (Zpos (digits2_pos ma)) with (Zdigits2 (Zpos ma)) in Ha.
  change (Zpos (digits2_pos mb)) with (Zdigits2 (Zpos mb)) in Hb.
  pose proof (Zdigits2_mul_le (Zpos ma) (Zpos mb) eq_refl eq_refl) as Hu.
  pose proof (Zdigits2_mul_ge (Zpos ma) (Zpos mb) eq_refl eq_refl) as Hl.
  pose proof (Zdigits2_nonneg (Zpos ma)).
  assert (1 <= Zdigits2 (Zpos ma)) by (cbn; lia).
  assert (1 <= Zdigits2 (Zpos mb)) by (cbn; lia).
  rewrite <- Pos2Z.inj_mul in Hu, Hl.
  apply binary_round_aux_bounded; try lia.
  rewrite fexp_eq; lia.
Qed.

Lemma Zdigits2_add_le (a b k : Z) :
  0 < a -> 0 < b -> Zdigits2 a <= k -> Zdigits2 b <= k ->
  Zdigits2 (a + b) <= k + 1.
Proof.
  intros Ha Hb Hka Hkb.
  destruct (Z_le_gt_dec a b).
  - pose proof (Zdigits2_le (a + b) (2 * b)); rewrite Zdigits2_double in *; lia.
  - pose proof (Zdigits2_le (a + b) (2 * a)); rewrite Zdigits2_double in *; lia.
Qed.

Lemma Zdigits2_opp (a : Z) : Zdigits2 (- a) = Zdigits2 a.
Proof. destruct a; reflexivity. Qed.

Lemma Zdigits2_abs_sum (a b k : Z) (sa sb : bool) :
  0 < a -> 0 < b -> Zdigits2 a <= k -> Zdigits2 b <= k ->
  Zdigits2 (cond_Zopp sa a + cond_Zopp sb b) <= k + 1 /\
  Zdigits2 (cond_Zopp sa a - cond_Zopp sb b) <= k + 1.
Proof.
  intros Ha Hb Hka Hkb.
  assert (H1a : 1 <= Zdigits2 a) by (destruct a; cbn; lia).
  assert (Hgen : forall c, Z.abs c <= a + b -> Zdigits2 c <= k + 1).
  { intros c Hc.
    destruct (Z.eq_dec c 0) as [->|Hn]; [cbn; lia|].
    replace (Zdigits2 c) with (Zdigits2 (Z.abs c))
      by (destruct c; reflexivity).
    pose proof (Zdigits2_le (Z.abs c) (a + b)).
    pose proof (Zdigits2_add_le a b k); lia. }
  split; apply Hgen; destruct sa, sb; cbn [cond_Zopp]; lia.
Qed.

Lemma aligned_digits (m : positive) (e ez : Z) :
  ez <= e ->
  0 < Zpos (fst (shl_align m e ez)) /\
  Zdigits2 (Zpos (fst (shl_align m e ez))) + ez = Zdigits2 (Zpos m) + e.
Proof.
  intros Hle; pose proof (shl_align_spec m e ez) as Hs; cbv zeta in Hs.
  destruct Hs as (H1 & _ & H3); split; [lia|].
  rewrite H1 in H3; replace (Z.min e ez) with ez in H3 by lia; exact H3.
Qed.

(** Addition and subtraction *)
Lemma SFadd_bounded (a b : spec_float) (k K : Z) :
  SFbounded k a -> SFbounded k b ->
  k + 2 <= K -> -1073 <= K -> K <= 1024 ->
  SFbounded K (SFadd prec emax a b).
Proof.
  intros Ha Hb HK Hlo Hhi.
  destruct a as [sa|sa| |sa ma ea]; destruct b as [sb|sb| |sb mb eb];
    cbn [SFbounded] in Ha, Hb; try contradiction.
  - cbn; destruct sa, sb; exact I.
  - cbn [SFadd SFbounded]; lia.
  - cbn [SFadd SFbounded]; lia.
  - cbn [SFadd].
    set (ez := Z.min ea eb).
    destruct (aligned_digits ma ea ez) as [Pa Da]; [unfold ez; lia|].
    destruct (aligned_digits mb eb ez) as [Pb Db]; [unfold ez; lia|].
    change (Zpos (digits2_pos ma)) with (Zdigits2 (Zpos ma)) in Ha.
    change (Zpos (digits2_pos mb)) with (Zdigits2 (Zpos mb)) in Hb.
    destruct (Zdigits2_abs_sum (Zpos (fst (shl_align ma ea ez)))
                (Zpos (fst (shl_align mb eb ez))) (k - ez) sa sb)
      as [Hsum _]; try lia.
    apply binary_normalize_bounded; lia.
Qed.

Lemma SFsub_bounded (a b : spec_float) (k K : Z) :
  SFbounded k a -> SFbounded k b ->
  k + 2 <= K -> -1073 <= K -> K <= 1024 ->
  SFbounded K (SFsub prec emax a b).
Proof.
  intros Ha Hb HK Hlo Hhi.
  destruct a as [sa|sa| |sa ma ea]; destruct b as [sb|sb| |sb mb eb];
    cbn [SFbounded] in Ha, Hb; try contradiction.
  - cbn; destruct sa, sb; exact I.
  - cbn [SFsub SFbounded]; lia.
  - cbn [SFsub SFbounded]; lia.
  - cbn [SFsub].
    set (ez := Z.min ea eb).
    destruct (aligned_digits ma ea ez) as [Pa Da]; [unfold ez; lia|].
    destruct (aligned_digits mb eb ez) as [Pb Db]; [unfold ez; lia|].
    change (Zpos (digits2_pos ma)) with (Zdigits2 (Zpos ma)) in Ha.
    change (Zpos (digits2_pos mb)) with (Zdigits2 (Zpos mb)) in Hb.
    destruct (Zdigits2_abs_sum (Zpos (fst (shl_align ma ea ez)))
                (Zpos (fst (shl_align mb eb ez))) (k - ez) sa sb)
      as [_ Hdiff]; try lia.
    apply binary_normalize_bounded; lia.
Qed.

Lemma Zdigits2_bounds (m : Z) :
  0 < m -> 2 ^ (Zdigits2 m - 1) <= m < 2 ^ Zdigits2 m.
Proof.
  intros Hm; rewrite Zdigits2_log2 by assumption.
  replace (Z.log2 m + 1 - 1) with (Z.log2 m) by lia.
  pose proof (Z.log2_spec m Hm); unfold Z.succ in *; lia.
Qed.

Lemma Zdigits2_lt_pow2 (m k : Z) : 0 < m -> m < 2 ^ k -> Zdigits2 m <= k.
Proof.
  intros Hm Hk; rewrite Zdigits2_log2 by assumption.
  assert (0 <= k).
  { destruct (Z_lt_le_dec k 0) as [Hn|]; [|assumption].
    rewrite Z.pow_neg_r in Hk by assumption; lia. }
  pose proof (proj1 (Z.log2_lt_pow2 m k Hm) Hk); lia.
Qed.

Lemma Zdigits2_ge_pow2 (m k : Z) : 0 <= k -> 2 ^ k <= m -> k + 1 <= Zdigits2 m.
Proof.
  intros Hk Hm.
  assert (0 < 2 ^ k) by (apply Z.pow_pos_nonneg; lia).
  rewrite Zdigits2_log2 by lia.
  pose proof (proj1 (Z.log2_le_pow2 m k ltac:(lia)) Hm); lia.
Qed.

(** The quotient of the division core: its exponent, and the number of
    digits of the integer quotient. *)
Lemma SFdiv_core_binary_spec (m1 m2 : positive) (e1 e2 : Z) :
  let T := Zdigits2 (Zpos m1) + e1 - (Zdigits2 (Zpos m2) + e2) in
  let '(q, e', _) := SFdiv_core_binary prec emax (Zpos m1) e1 (Zpos m2) e2 in
  0 <= q /\
  e' <= fexp prec emax (Zdigits2 q + e') /\
  Zdigits2 q + e' <= Z.max (T + 1) (-1074).
Proof.
  cbv zeta; unfold SFdiv_core_binary.
  set (d1 := Zdigits2 (Zpos m1)); set (d2 := Zdigits2 (Zpos m2)).
  set (e' := Z.min (fexp prec emax (d1 + e1 - (d2 + e2))) (e1 - e2)).
  assert (Ee' : e' = Z.min (Z.max (d1 + e1 - (d2 + e2) - 53) (-1074)) (e1 - e2))
    by (unfold e'; rewrite fexp_eq; reflexivity).
  clearbody e'.
  set (s := e1 - e2 - e').
  assert (Es : s = e1 - e2 - e') by reflexivity.
  assert (Hs : 0 <= s) by lia.
  set (m' := match s with Z.pos _ => Z.shiftl (Zpos m1) s | 0 => Zpos m1
                     | Z.neg _ => 0 end).
  assert (Em' : m' = Zpos m1 * 2 ^ s).
  { unfold m'; clearbody s; destruct s as [|p|p].
    - cbn; lia.
    - rewrite Z.shiftl_mul_pow2 by lia; reflexivity.
    - lia. }
  clearbody m'.
  pose proof (Z_div_mod m' (Zpos m2) eq_refl) as Hdm.
  destruct (Z.div_eucl m' (Zpos m2)) as [q r]; destruct Hdm as [Hq Hr].
  pose proof (Zdigits2_bounds (Zpos m1) eq_refl) as B1; fold d1 in B1.
  pose proof (Zdigits2_bounds (Zpos m2) eq_refl) as B2; fold d2 in B2.
  assert (P1 : 1 <= d1) by (unfold d1; cbn; lia).
  assert (P2 : 1 <= d2) by (unfold d2; cbn; lia).
  assert (Ps : 0 < 2 ^ s) by (apply Z.pow_pos_nonneg; lia).
  assert (Hq0 : 0 <= q) by nia.
  assert (U1 : m' < 2 ^ (d1 + s)) by (rewrite Z.pow_add_r by lia; nia).
  assert (L1 : 2 ^ (d1 - 1 + s) <= m') by (rewrite Z.pow_add_r by lia; nia).
  rewrite fexp_eq.
  split; [exact Hq0|]; split.
  - (* the quotient has 53 digits unless the exponent is the smallest one *)
    destruct (Z_le_gt_dec e' (-1074)) as [Hlow|Hhigh]; [lia|].
    assert (Hs53 : 52 + d2 <= d1 - 1 + s) by lia.
    assert (L2 : 2 ^ (52 + d2) <= m').
    { eapply Z.le_trans; [|exact L1]. apply Z.pow_le_mono_r; lia. }
    rewrite Z.pow_add_r in L2 by lia.
    assert (P52 : 0 < 2 ^ 52) by reflexivity.
    assert (Hq52 : 2 ^ 52 <= q) by nia.
    pose proof (Zdigits2_ge_pow2 q 52 ltac:(lia) Hq52); lia.
  - destruct (Z.eq_dec q 0) as [->|Hqn].
    + cbn [Zdigits2]; lia.
    + assert (Hq1 : 1 <= q) by lia.
      assert (Hd : d2 - 1 < d1 + s).
      { destruct (Z_lt_le_dec (d2 - 1) (d1 + s)) as [|Hge]; [assumption|].
        pose proof (Z.pow_le_mono_r 2 (d1 + s) (d2 - 1) ltac:(lia) Hge).
        nia. }
      assert (Uq : q < 2 ^ (d1 + s - d2 + 1)).
      { assert (E : 2 ^ (d1 + s) = 2 ^ (d1 + s - d2 + 1) * 2 ^ (d2 - 1)).
        { rewrite <- Z.pow_add_r by lia; f_equal; lia. }
        assert (0 < 2 ^ (d2 - 1)) by (apply Z.pow_pos_nonneg; lia).
        nia. }
      pose proof (Zdigits2_lt_pow2 q _ ltac:(lia) Uq).
      lia.
Qed.

(** Division by a finite non-zero number *)
Lemma SFdiv_bounded (a : spec_float) (sb : bool) (mb : positive) (eb k K : Z) :
  SFbounded k a ->
  k - (Zdigits2 (Zpos mb) + eb) + 2 <= K -> -1073 <= K -> K <= 1024 ->
  SFbounded K (SFdiv prec emax a (S754_finite sb mb eb)).
Proof.
  intros Ha HK Hlo Hhi.
  destruct a as [sa|sa| |sa ma ea]; cbn [SFbounded] in Ha; try contradiction.
  - exact I.
  - cbn [SFdiv].
    pose proof (SFdiv_core_binary_spec ma mb ea eb) as Hc; cbv zeta in Hc.
    destruct (SFdiv_core_binary prec emax (Zpos ma) ea (Zpos mb) eb)
      as [[q e'] l].
    destruct Hc as (Hq & Hpre & Hdig).
    change (Zpos (digits2_pos ma)) with (Zdigits2 (Zpos ma)) in Ha.
    apply binary_round_aux_bounded; try assumption; lia.
Qed.

End RoundingBounds.

(** ** Finite poses at doubles *)

Section FinitePose.

Import Double.
Local Open Scope float_scope.

Lemma minimalMath_bounded : boundedMath minimalMath.
Proof.
  repeat split; intros a Ha; cbn [impl_cos impl_sin impl_toFixed2 minimalMath];
    rewrite ?Ha; try reflexivity; exact Ha.
Qed.

(** *** Magnitude bounds through the arithmetic of doubles *)

Lemma below_finite (k : Z) (a : float) : below k a -> is_finite a = true.
Proof.
  unfold below; rewrite is_finite_Prim2SF.
  destruct (Prim2SF a); cbn; intros Hb; try reflexivity; contradiction.
Qed.

Lemma below_mono (k l : Z) (a : float) : (k <= l)%Z -> below k a -> below l a.
Proof. unfold below; apply SFbounded_mono. Qed.

Lemma valid_digits_le_53 (s : bool) (m : positive) (e : Z) :
  valid_binary (S754_finite s m e) = true -> (Zpos (digits2_pos m) <= 53)%Z.
Proof.
  intros Hv; apply SFbounded_valid_canonical in Hv.
  change (Zdigits2 (Zpos m)) with (Zpos (digits2_pos m)) in Hv; lia.
Qed.

(** A double of magnitude at most [c] has an exponent at most that of
    [c]. *)
Lemma abs_le_below (a c : float) (sc : bool) (mc : positive) (ec : Z) :
  Prim2SF c = S754_finite sc mc ec ->
  (abs a <=? c) = true -> below (53 + ec) a.
Proof.
  intros Ec; rewrite leb_compare, abs_spec, Ec; unfold below.
  pose proof (Prim2SF_valid a) as Hv.
  destruct (Prim2SF a) as [s|s| |s m e]; cbn [SFabs SFcompare SFbounded].
  - intros _; exact I.
  - discriminate.
  - discriminate.
  - apply valid_digits_le_53 in Hv.
    destruct sc; [discriminate|].
    destruct (Z.compare_spec e ec); intros Hc; try discriminate; lia.
Qed.

(** A double between two finite non-zero doubles has an exponent at most
    the larger of theirs. *)
Lemma between_below
  (lo a hi : float) (sl sh : bool) (ml mh : positive) (el eh : Z) :
  Prim2SF lo = S754_finite sl ml el -> Prim2SF hi = S754_finite sh mh eh ->
  (lo <=? a) = true -> (a <=? hi) = true ->
  below (53 + Z.max el eh) a.
Proof.
  intros El Eh; rewrite !leb_compare, El, Eh; unfold below.
  pose proof (Prim2SF_valid a) as Hv.
  destruct (Prim2SF a) as [s|s| |s m e]; cbn [SFcompare SFbounded].
  - intros _ _; exact I.
  - destruct s; [discriminate | intros _; discriminate].
  - discriminate.
  - apply valid_digits_le_53 in Hv.
    destruct s.
    + destruct sl; [|discriminate].
      destruct (Z.compare_spec el e); intros Hc _; try discriminate; lia.
    + intros _; destruct sh; [discriminate|].
      destruct (Z.compare_spec e eh); intros Hc; try discriminate; lia.
Qed.

Lemma mul_below (a b : float) (k l K : Z) :
  below k a -> below l b ->
  (k + l + 1 <= K)%Z -> (-1073 <= K)%Z -> (K <= 1024)%Z ->
  below K (a * b).
Proof.
  unfold below; rewrite FloatAxioms.mul_spec; unfold SF64mul.
  intros Ha Hb; apply SFmul_bounded with (k := k) (l := l);
    auto using Prim2SF_valid.
Qed.

Lemma add_below (a b : float) (k K : Z) :
  below k a -> below k b ->
  (k + 2 <= K)%Z -> (-1073 <= K)%Z -> (K <= 1024)%Z ->
  below K (a + b).
Proof.
  unfold below; rewrite FloatAxioms.add_spec; unfold SF64add.
  intros Ha Hb; apply SFadd_bounded with (k := k); assumption.
Qed.

Lemma sub_below (a b : float) (k K : Z) :
  below k a -> below k b ->
  (k + 2 <= K)%Z -> (-1073 <= K)%Z -> (K <= 1024)%Z ->
  below K (a - b).
Proof.
  unfold below; rewrite FloatAxioms.sub_spec; unfold SF64sub.
  intros Ha Hb; apply SFsub_bounded with (k := k); assumption.
Qed.

Lemma div_below (a b : float) (sb : bool) (mb : positive) (eb k K : Z) :
  below k a -> Prim2SF b = S754_finite sb mb eb ->
  (k - (Zpos (digits2_pos mb) + eb) + 2 <= K)%Z ->
  (-1073 <= K)%Z -> (K <= 1024)%Z ->
  below K (a / b).
Proof.
  unfold below; rewrite FloatAxioms.div_spec; unfold SF64div.
  intros Ha Eb; rewrite Eb; apply SFdiv_bounded with (k := k); assumption.
Qed.

(** *** The conversions and the literals of the kinematics *)

Lemma d2r64_below (M : MathImpl) (a : float) (k : Z) :
  below k a -> (-1070 <= k)%Z -> (k <= 1021)%Z -> below (k - 3) (d2r64 M a).
Proof.
  intros Ha Hlo Hhi; unfold d2r64, d2r; cbn [mul div Math_PI ofZ DoubleNumber].
  apply (div_below (a * PI64) (ofZ64 180) false 6333186975989760 (-45)
           (k + 3) (k - 3)); try (cbn; lia).
  - apply (mul_below a PI64 k 2 (k + 3)); try lia; try exact Ha.
    unfold below; vm_compute; intros Hc; discriminate Hc.
  - vm_compute; reflexivity.
Qed.

Lemma r2d64_below (M : MathImpl) (a : float) (k : Z) :
  below k a -> (-1082 <= k)%Z -> (k <= 1015)%Z ->
  below (k + 9) (@r2d float (DoubleNumber M) a).
Proof.
  intros Ha Hlo Hhi; unfold r2d; cbn [mul div Math_PI ofZ DoubleNumber].
  apply (div_below (a * ofZ64 180) PI64 false 7074237752028440 (-51)
           (k + 9) (k + 9)); try (cbn; lia).
  - apply (mul_below a (ofZ64 180) k 8 (k + 9)); try lia; try exact Ha.
    unfold below; vm_compute; intros Hc; discriminate Hc.
  - vm_compute; reflexivity.
Qed.

(** The link lengths, offsets and the constants of the orientation are
    all below [2 ^ 11]. *)
Lemma literals_below (M : MathImpl) :
  let N := DoubleNumber M in
  below 11 (a1 (@DIMS float N)) /\ below 11 (a2 (@DIMS float N)) /\
  below 11 (a3 (@DIMS float N)) /\ below 11 (d4 (@DIMS float N)) /\
  below 11 (d1 (@DIMS float N)) /\ below 11 (j3_offset_deg (@DIMS float N)) /\
  below 11 (ofZ64 0) /\ below 11 (ofZ64 90) /\ below 11 (ofZ64 180) /\
  below 11 (ofZ64 360).
Proof.
  cbv zeta; unfold below; repeat split; vm_compute;
    try exact I; intros Hc; discriminate Hc.
Qed.

Lemma cleanFloat64_finite (M : MathImpl) (a : float) :
  boundedMath M -> is_finite a = true ->
  is_finite (@cleanFloat float (DoubleNumber M) a) = true.
Proof.
  intros (_ & _ & Hfix) Ha; unfold cleanFloat.
  cbn [lt Math_abs lit_0_001 ofZ toFixed2 DoubleNumber].
  destruct (abs a <? 1 / 1000); [reflexivity | apply Hfix, Ha].
Qed.

(** *** The pose *)

Section Bounded.

Variable M : MathImpl.
Variable j : JointState float.
Hypothesis HM : boundedMath M.
Hypothesis H1 : below 997 (j1 j).
Hypothesis H2 : below 997 (j2 j).
Hypothesis H3 : below 997 (j3 j).
Hypothesis H5 : below 997 (j5 j).

Lemma cos_below (a : float) (k : Z) : below k a -> below 1 (impl_cos M a).
Proof.
  intros Ha; destruct HM as (Hcos & _ & _).
  apply (abs_le_below _ 1 false 4503599627370496 (-52) eq_refl).
  apply Hcos, (below_finite k), Ha.
Qed.

Lemma sin_below (a : float) (k : Z) : below k a -> below 1 (impl_sin M a).
Proof.
  intros Ha; destruct HM as (_ & Hsin & _).
  apply (abs_le_below _ 1 false 4503599627370496 (-52) eq_refl).
  apply Hsin, (below_finite k), Ha.
Qed.

Lemma offset_below : below 994 (d2r64 M (j3_offset_deg (@DIMS float (DoubleNumber M)))).
Proof.
  apply (d2r64_below M _ 997); try lia.
  apply (below_mono 11); [lia | apply (literals_below M)].
Qed.

Lemma theta_2_below : below 994 (@theta_2 float (DoubleNumber M) j).
Proof. apply (d2r64_below M _ 997); try lia; exact H2. Qed.

Lemma theta_3_below : below 998 (@theta_3 float (DoubleNumber M) j).
Proof.
  unfold theta_3; cbn [add DoubleNumber].
  apply (add_below _ _ 996); try lia.
  - apply (add_below _ _ 994); try lia;
      apply (d2r64_below M _ 997); try lia; assumption.
  - apply (below_mono 994); [lia | exact offset_below].
Qed.

Lemma theta_4_below : below 1000 (@theta_4 float (DoubleNumber M) j).
Proof.
  unfold theta_4; cbn [add DoubleNumber].
  apply (add_below _ _ 998); try lia.
  - apply (add_below _ _ 996); try lia.
    + apply (add_below _ _ 994); try lia;
        apply (d2r64_below M _ 997); try lia; assumption.
    + apply (below_mono 994); [lia|];
        apply (d2r64_below M _ 997); try lia; assumption.
  - apply (below_mono 994); [lia | exact offset_below].
Qed.

Lemma r_xy_below : below 19 (@r_xy float (DoubleNumber M) j).
Proof.
  destruct (literals_below M) as (L1 & L2 & L3 & L4 & _).
  unfold r_xy; cbn [add mul Math_cos DoubleNumber].
  apply (add_below _ _ 17); try lia.
  - apply (add_below _ _ 15); try lia.
    + apply (add_below _ _ 13); try lia.
      * apply (below_mono 11); [lia | exact L1].
      * apply (mul_below _ _ 11 1); try lia;
          [exact L2 | apply (cos_below _ 994), theta_2_below].
    + apply (below_mono 13); [lia|].
      apply (mul_below _ _ 11 1); try lia;
        [exact L3 | apply (cos_below _ 998), theta_3_below].
  - apply (below_mono 13); [lia|].
    apply (mul_below _ _ 11 1); try lia;
      [exact L4 | apply (cos_below _ 1000), theta_4_below].
Qed.

Lemma z_height_below : below 19 (@z_height float (DoubleNumber M) j).
Proof.
  destruct (literals_below M) as (_ & L2 & L3 & L4 & L5 & _).
  unfold z_height; cbn [add mul Math_sin DoubleNumber].
  apply (add_below _ _ 17); try lia.
  - apply (add_below _ _ 15); try lia.
    + apply (add_below _ _ 13); try lia.
      * apply (below_mono 11); [lia | exact L5].
      * apply (mul_below _ _ 11 1); try lia;
          [exact L2 | apply (sin_below _ 994), theta_2_below].
    + apply (below_mono 13); [lia|].
      apply (mul_below _ _ 11 1); try lia;
        [exact L3 | apply (sin_below _ 998), theta_3_below].
  - apply (below_mono 13); [lia|].
    apply (mul_below _ _ 11 1); try lia;
      [exact L4 | apply (sin_below _ 1000), theta_4_below].
Qed.

Lemma frame_below :
  below 11 (@rx_raw float (DoubleNumber M) j) /\ below 1011 (@ry_raw float (DoubleNumber M) j) /\
  below 11 (@rz_raw float (DoubleNumber M) j).
Proof.
  destruct (literals_below M) as (_ & _ & _ & _ & _ & _ & L0 & L90 & L180 & _).
  assert (Hp : below 1009 (@global_pitch_deg float (DoubleNumber M) j)).
  { unfold global_pitch_deg.
    apply (r2d64_below M _ 1000); try lia; exact theta_4_below. }
  unfold rx_raw, ry_raw, rz_raw, frame.
  destruct (ge _ _); cbn [fst snd ofZ add sub DoubleNumber];
    repeat split; try assumption.
  - apply (add_below _ _ 1009); try lia;
      [exact Hp | apply (below_mono 11); [lia | exact L90]].
  - apply (sub_below _ _ 1009); try lia;
      [apply (below_mono 11); [lia | exact L90] | exact Hp].
Qed.

Lemma normalizeRy_below (a : float) :
  below 1011 a -> below 1015 (@normalizeRy float (DoubleNumber M) a).
Proof.
  intros Ha.
  destruct (literals_below M) as (_ & _ & _ & _ & _ & _ & _ & _ & _ & L360).
  assert (H360 : below 1013 (ofZ64 360))
    by (apply (below_mono 11); [lia | exact L360]).
  unfold normalizeRy; cbn [gt lt add sub ofZ DoubleNumber].
  assert (Hs : below 1013 (if ofZ64 180 <? a then a - ofZ64 360 else a)).
  { destruct (ofZ64 180 <? a).
    - apply (sub_below _ _ 1011); try lia;
        [exact Ha | apply (below_mono 11); [lia | exact L360]].
    - apply (below_mono 1011); [lia | exact Ha]. }
  destruct (_ <? ofZ64 (-180)).
  - apply (add_below _ _ 1013); try lia; assumption.
  - apply (below_mono 1013); [lia | exact Hs].
Qed.

Lemma finitePose_of_below : finitePose (fk64 M j).
Proof.
  unfold fk64; rewrite calculateForwardKinematics_unfold.
  destruct frame_below as (Fx & Fy & Fz).
  unfold finitePose; cbn [x y z rx ry rz mul Math_cos Math_sin DoubleNumber].
  repeat split.
  - apply (below_finite 21), (mul_below _ _ 1 19); try lia;
      [apply (cos_below _ 994), (d2r64_below M _ 997); try lia; exact H1
      | exact r_xy_below].
  - apply (below_finite 21), (mul_below _ _ 1 19); try lia;
      [apply (sin_below _ 994), (d2r64_below M _ 997); try lia; exact H1
      | exact r_xy_below].
  - apply (below_finite 19), z_height_below.
  - apply cleanFloat64_finite, (below_finite 11); assumption.
  - apply cleanFloat64_finite, (below_finite 1015); [exact HM|].
    unfold ry_normalized; apply normalizeRy_below, Fy.
  - apply cleanFloat64_finite, (below_finite 11); assumption.
Qed.

End Bounded.

Lemma anglesWithin_below (j : JointState float) :
  anglesWithin lit_1e300 j ->
  below 997 (j1 j) /\ below 997 (j2 j) /\ below 997 (j3 j) /\ below 997 (j5 j).
Proof.
  intros (A1 & A2 & A3 & A5);
    repeat split;
    apply (abs_le_below _ lit_1e300 false 6724873095247260 944 eq_refl);
    assumption.
Qed.

Lemma inLimits64_below (M : MathImpl) (j : JointState float) :
  inLimits64 M j ->
  below 997 (j1 j) /\ below 997 (j2 j) /\ below 997 (j3 j) /\ below 997 (j5 j).
Proof.
  intros Hin.
  assert (Hax : forall axis, axis <> J2 -> below 997 (getAxis axis j)).
  { intros axis Hne; destruct (Hin axis) as [Hlo Hhi].
    destruct axis; try congruence;
      cbn [JOINT_LIMITS min max ofZ DoubleNumber] in Hlo, Hhi.
    - generalize (between_below (ofZ64 (-180)) _ (ofZ64 180) _ _ _ _ (-45) (-45)
               eq_refl eq_refl Hlo Hhi);
        apply below_mono; cbn; lia.
    - generalize (between_below (ofZ64 (-180)) _ (ofZ64 90) _ _ _ _ (-45) (-46)
               eq_refl eq_refl Hlo Hhi);
        apply below_mono; cbn; lia.
    - generalize (between_below (ofZ64 (-360)) _ (ofZ64 360) _ _ _ _ (-44) (-44)
               eq_refl eq_refl Hlo Hhi);
        apply below_mono; cbn; lia.
    - generalize (between_below (ofZ64 (-180)) _ (ofZ64 180) _ _ _ _ (-45) (-45)
               eq_refl eq_refl Hlo Hhi);
        apply below_mono; cbn; lia.
    - generalize (between_below (ofZ64 (-360)) _ (ofZ64 360) _ _ _ _ (-44) (-44)
               eq_refl eq_refl Hlo Hhi);
        apply below_mono; cbn; lia. }
  repeat split;
    [apply (Hax J1) | | apply (Hax J3) | apply (Hax J5)]; try discriminate.
  (* J2 runs from 0, which has no exponent of its own *)
  destruct (Hin J2) as [Hlo Hhi];
    cbn [JOINT_LIMITS min max ofZ getAxis DoubleNumber] in Hlo, Hhi.
  rewrite leb_compare in Hlo, Hhi; unfold below.
  pose proof (Prim2SF_valid (j2 j)) as Hv.
  replace (Prim2SF (ofZ64 0)) with (S754_zero false) in Hlo by reflexivity.
  replace (Prim2SF (ofZ64 160))
    with (S754_finite false 5629499534213120 (-45)) in Hhi by reflexivity.
  destruct (Prim2SF (j2 j)) as [s|s| |s m e]; cbn [SFcompare SFbounded] in *.
  - exact I.
  - destruct s; discriminate.
  - discriminate.
  - apply valid_digits_le_53 in Hv.
    destruct s; [discriminate|].
    destruct (Z.compare_spec e (-45)); try discriminate; lia.
Qed.

(** C6, as the code has it. The function has no error path, and at doubles
    the pose it returns is finite for every joint state whose angles J1,
    J2, J3 and J5 are at most 1e300 in magnitude, and for every joint state
    within the joint limits, with any [Math] library whose cosine and sine
    of a finite number lie in [-1, 1] and whose [toFixed] keeps finite
    numbers finite. *)
Theorem finite_pose_for_bounded_angles (M : MathImpl) (j : JointState float) :
  boundedMath M ->
  anglesWithin lit_1e300 j \/ inLimits64 M j ->
  finitePose (fk64 M j).
Proof.
  intros HM [Hj | Hj];
    [apply anglesWithin_below in Hj | apply inLimits64_below in Hj];
    destruct Hj as (B1 & B2 & B3 & B5);
    apply finitePose_of_below; assumption.
Qed.

(** C6 at J1 = 1e300 and J5 = -1e300, far outside the joint limits. *)
Lemma finite_pose_for_bounded_angles_example :
  finitePose
    (fk64 minimalMath (mkJointState lit_1e300 90 0 0 (- lit_1e300) 0)).
Proof.
  apply (finite_pose_for_bounded_angles minimalMath
           (mkJointState lit_1e300 90 0 0 (- lit_1e300) 0)).
  - exact minimalMath_bounded.
  - left; repeat split; vm_compute; reflexivity.
Defined.

End FinitePose.

(** ** The rendered arm against the kinematics, over the reals *)

Section RenderedArm.

Import RobotModel.
Local Open Scope R_scope.

Lemma cos_d2r_minus_90 (a : R) : cos (d2r (a - 90)) = sin (d2r a).
Proof.
  rewrite !d2r_R.
  replace ((a - 90) * PI / 180) with (- (PI / 2 - a * PI / 180)) by field.
  rewrite cos_neg; apply cos_shift.
Qed.

Lemma sin_d2r_minus_90 (a : R) : sin (d2r (a - 90)) = - cos (d2r a).
Proof.
  rewrite !d2r_R.
  replace ((a - 90) * PI / 180) with (- (PI / 2 - a * PI / 180)) by field.
  rewrite sin_neg, sin_shift; reflexivity.
Qed.

Lemma cos_theta_3 (j : JointState R) :
  cos (theta_3 j)
  = sin (d2r (j2 j)) * cos (d2r (j3 j)) + cos (d2r (j2 j)) * sin (d2r (j3 j)).
Proof.
  rewrite theta_3_R, !d2r_R.
  replace (j2 j * PI / 180 + j3 j * PI / 180 + -90 * PI / 180)
    with (- (PI / 2 - (j2 j * PI / 180 + j3 j * PI / 180))) by field.
  rewrite cos_neg, cos_shift, sin_plus; reflexivity.
Qed.

Lemma sin_theta_3 (j : JointState R) :
  sin (theta_3 j)
  = - (cos (d2r (j2 j)) * cos (d2r (j3 j)) - sin (d2r (j2 j)) * sin (d2r (j3 j))).
Proof.
  rewrite theta_3_R, !d2r_R.
  replace (j2 j * PI / 180 + j3 j * PI / 180 + -90 * PI / 180)
    with (- (PI / 2 - (j2 j * PI / 180 + j3 j * PI / 180))) by field.
  rewrite sin_neg, sin_shift, cos_plus; reflexivity.
Qed.

Lemma group_identity (p : Vec3) : group origin origin p = p.
Proof.
  destruct p as [[u v] w]; unfold group, origin, vadd, rotX, rotY, rotZ.
  rewrite cos_0, sin_0; f_equal; [f_equal|]; ring.
Qed.

Lemma group_translate (a b c u v w : R) :
  group (a, b, c) origin (u, v, w) = (a + u, b + v, c + w).
Proof.
  unfold group, origin, vadd, rotX, rotY, rotZ.
  rewrite cos_0, sin_0; f_equal; [f_equal|]; ring.
Qed.

Lemma group_about_Y (a b c t u v w : R) :
  group (a, b, c) (0, t, 0) (u, v, w)
  = (a + (u * cos t + w * sin t), b + v, c + (- u * sin t + w * cos t)).
Proof.
  unfold group, vadd, rotX, rotY, rotZ.
  rewrite cos_0, sin_0; f_equal; [f_equal|]; ring.
Qed.

Lemma group_about_Z (a b c t u v w : R) :
  group (a, b, c) (0, 0, t) (u, v, w)
  = (a + (u * cos t - v * sin t), b + (u * sin t + v * cos t), c + w).
Proof.
  unfold group, vadd, rotX, rotY, rotZ.
  rewrite cos_0, sin_0; f_equal; [f_equal|]; ring.
Qed.

(** The frames of the scene, one level at a time. *)

Lemma fromBase_eq (p : Vec3) : fromBase p = p.
Proof. unfold fromBase; rewrite !group_identity; reflexivity. Qed.

Lemma fromJ1_eq (j : JointState R) (u v w : R) :
  fromJ1 j (u, v, w)
  = (0 + (u * cos (d2r (j1 j)) + w * sin (d2r (j1 j))),
     baseHeight + v,
     0 + (- u * sin (d2r (j1 j)) + w * cos (d2r (j1 j)))).
Proof. unfold fromJ1; rewrite group_about_Y; apply fromBase_eq. Qed.

Lemma fromShoulder_eq (j : JointState R) (u v w : R) :
  fromShoulder j (u, v, w) = fromJ1 j (0 + u, - (1 / 10) + v, 0 + w).
Proof. unfold fromShoulder; rewrite group_translate; reflexivity. Qed.

Lemma fromJ2_eq (j : JointState R) (u v w : R) :
  fromJ2 j (u, v, w)
  = fromShoulder j
      (j1OffsetX + (u * cos (j2Rot j) - v * sin (j2Rot j)),
       1 / 10 + (u * sin (j2Rot j) + v * cos (j2Rot j)),
       0 + w).
Proof. unfold fromJ2; rewrite group_about_Z; reflexivity. Qed.

Lemma fromLink2_eq (j : JointState R) (p : Vec3) : fromLink2 j p = fromJ2 j p.
Proof. unfold fromLink2; rewrite group_identity; reflexivity. Qed.

Lemma fromJ3_eq (j : JointState R) (u v w : R) :
  fromJ3 j (u, v, w)
  = fromLink2 j
      (0 + (u * cos (j3Rot j) - v * sin (j3Rot j)),
       link2Length + (u * sin (j3Rot j) + v * cos (j3Rot j)),
       0 + w).
Proof. unfold fromJ3; rewrite group_about_Z; reflexivity. Qed.

Lemma fromLink3_eq (j : JointState R) (p : Vec3) : fromLink3 j p = fromJ3 j p.
Proof. unfold fromLink3; rewrite group_identity; reflexivity. Qed.

Lemma fromJ4_eq (j : JointState R) (u v w : R) :
  fromJ4 j (u, v, w)
  = fromLink3 j
      (0 + (u * cos (- d2r (j4 j)) + w * sin (- d2r (j4 j))),
       link3Length + v,
       0 + (- u * sin (- d2r (j4 j)) + w * cos (- d2r (j4 j)))).
Proof. unfold fromJ4; rewrite group_about_Y; reflexivity. Qed.

Lemma wristCentre_eq (j : JointState R) :
  wristCentre j
  = ((j1OffsetX + link2Length * cos (d2r (j2 j))
      + link3Length * (sin (d2r (j2 j)) * cos (d2r (j3 j))
                       + cos (d2r (j2 j)) * sin (d2r (j3 j))))
     * cos (d2r (j1 j)),
     baseHeight + link2Length * sin (d2r (j2 j))
     - link3Length * (cos (d2r (j2 j)) * cos (d2r (j3 j))
                      - sin (d2r (j2 j)) * sin (d2r (j3 j))),
     - ((j1OffsetX + link2Length * cos (d2r (j2 j))
         + link3Length * (sin (d2r (j2 j)) * cos (d2r (j3 j))
                          + cos (d2r (j2 j)) * sin (d2r (j3 j))))
        * sin (d2r (j1 j)))).
Proof.
  unfold wristCentre, origin.
  rewrite fromJ4_eq, fromLink3_eq, fromJ3_eq, fromLink2_eq, fromJ2_eq,
    fromShoulder_eq, fromJ1_eq.
  unfold j2Rot, j3Rot.
  rewrite !cos_d2r_minus_90, !sin_d2r_minus_90.
  f_equal; [f_equal|]; ring.
Qed.

(** X22. The 3D model agrees with the displayed position: the end of the
    forearm in the scene is the computed position in metres, with the
    scene's Y up and its Z opposite to the kinematic y. *)
Theorem rendered_wrist_matches_pose (j : JointState R) :
  let p := calculateForwardKinematics j in
  wristCentre j = (x p / 1000, z p / 1000, - (y p / 1000)).
Proof.
  cbv zeta; rewrite wristCentre_eq, calculateForwardKinematics_unfold.
  cbn [x y z].
  change (Math_cos (d2r (j1 j)) * r_xy j)%js with (cos (d2r (j1 j)) * r_xy j).
  change (Math_sin (d2r (j1 j)) * r_xy j)%js with (sin (d2r (j1 j)) * r_xy j).
  rewrite r_xy_R, z_height_R, cos_theta_3, sin_theta_3.
  change (theta_2 j) with (d2r (j2 j)).
  unfold baseHeight, j1OffsetX, link2Length, link3Length.
  f_equal; [f_equal|]; field.
Qed.

Lemma fromJ6_on_axis (j : JointState R) (v : R) :
  fromJ6 j (0, v, 0) = fromJ5 j (0, 28 / 100 + v, 0).
Proof.
  unfold fromJ6; rewrite group_about_Y.
  f_equal; f_equal; [f_equal|]; ring.
Qed.

Lemma fromJ5_reads_j1_to_j5 (a b : JointState R) (p : Vec3) :
  j1 a = j1 b -> j2 a = j2 b -> j3 a = j3 b -> j4 a = j4 b -> j5 a = j5 b ->
  fromJ5 a p = fromJ5 b p.
Proof.
  intros E1 E2 E3 E4 E5.
  unfold fromJ5, fromJ4, fromLink3, fromJ3, fromLink2, fromJ2, fromShoulder,
    fromJ1, j2Rot, j3Rot.
  rewrite E1, E2, E3, E4, E5; reflexivity.
Qed.

(** X23. Twisting J6 does not move the tool tip of the 3D model: the tip
    lies on the axis J6 turns about. *)
Theorem tool_tip_independent_of_j6 (j : JointState R) (v : R) :
  toolTip (setAxis J6 v j) = toolTip j.
Proof.
  unfold toolTip, fromTool; rewrite !group_translate.
  replace (0 + 0) with 0 by ring.
  rewrite !fromJ6_on_axis.
  apply fromJ5_reads_j1_to_j5; reflexivity.
Qed.

End RenderedArm.
